(** * A to-do list kept in browser storage: model of [src/app.js]

    The program is a single script: a module-level task array, a tag
    filter and a sort mode, a storage adapter ([loadTasks]/[saveTasks]),
    a renderer ([renderTasks], [updateTaskCount]) and four mutations
    ([addTask], [removeTask], [toggleTaskCompleted],
    [clearCompletedTasks]).

    The embedding is shallow.  Module-level variables become fields of a
    [State] record that every procedure takes and returns.  Arrays live
    in a store of cells addressed by location, because the script both
    mutates arrays in place ([push], [sort]) and rebinds [tasks] to new
    arrays ([filter], [map]).  The parts of the JavaScript platform whose
    result depends on the engine or the locale ([localeCompare], number
    printing and parsing, the JSON text codec) are fields of a [Platform]
    record; clock readings and generated identifiers come from a
    [World] of oracles that is threaded through the calls.

    Layout: the model of the script; the vocabulary of the statements; a
    reference platform and a sample session; lemmas; the properties of
    the specification, C1 to C10; the proof that the reference platform
    meets the platform laws; the properties at work on the sample
    session, and the examples of the specification. *)

From Stdlib Require Import Bool Arith ZArith Lia List Ascii String.
From Stdlib Require Import DecimalString DecimalPos DecimalN DecimalNat.
From Stdlib Require Import Permutation Sorted.
Import ListNotations.

Local Open Scope string_scope.
Local Open Scope list_scope.
Local Set Warnings "-register-all".

(* ================================================================= *)
(** ** Strings

    A JavaScript string is a sequence of code units; here a [string] of
    [ascii], one [ascii] per code unit, which covers the code units below
    256.  On that range the white space and line terminators removed by
    [String.prototype.trim] are TAB, LF, VT, FF, CR, SP and NBSP, and
    [toLowerCase] moves A-Z and the accented capitals of Latin-1. *)

Module Str.

Definition isWhiteSpace (c : ascii) : bool :=
  let n := nat_of_ascii c in
  (((9 <=? n) && (n <=? 13)) || (n =? 32) || (n =? 160))%nat.

Fixpoint trimStart (s : string) : string :=
  match s with
  | EmptyString => EmptyString
  | String c s' => if isWhiteSpace c then trimStart s' else s
  end.

Fixpoint trimEnd (s : string) : string :=
  match s with
  | EmptyString => EmptyString
  | String c s' =>
      match trimEnd s' with
      | EmptyString => if isWhiteSpace c then EmptyString else String c EmptyString
      | r => String c r
      end
  end.

(** [s.trim()] *)
Definition trim (s : string) : string := trimEnd (trimStart s).

Definition lowerChar (c : ascii) : ascii :=
  let n := nat_of_ascii c in
  if (((65 <=? n) && (n <=? 90))
      || ((192 <=? n) && (n <=? 222) && negb (n =? 215)))%nat
  then ascii_of_nat (n + 32)
  else c.

(** [s.toLowerCase()] *)
Fixpoint toLowerCase (s : string) : string :=
  match s with
  | EmptyString => EmptyString
  | String c s' => String (lowerChar c) (toLowerCase s')
  end.

(** [s.split(sep)] for a one-unit separator; the result is never the
    empty array: splitting the empty string gives one empty piece. *)
Fixpoint split (sep : ascii) (s : string) : list string :=
  match s with
  | EmptyString => [EmptyString]
  | String c s' =>
      if Ascii.eqb c sep then EmptyString :: split sep s'
      else match split sep s' with
           | piece :: rest => String c piece :: rest
           | [] => [String c EmptyString]
           end
  end.

(** A string is truthy when it is not empty ([Boolean(s)], [!s]). *)
Definition truthy (s : string) : bool :=
  match s with EmptyString => false | String _ _ => true end.

(** [elts.join(",")] on strings. *)
Fixpoint join (sep : string) (l : list string) : string :=
  match l with
  | [] => EmptyString
  | [x] => x
  | x :: rest => (x ++ sep ++ join sep rest)%string
  end.

(** Decimal text of an array length or an index, as a template literal
    prints it. *)
Definition ofNat (n : nat) : string :=
  NilEmpty.string_of_uint (Nat.to_uint n).

End Str.


(* ================================================================= *)
(** ** Numbers

    [createdAt] holds epoch milliseconds.  The model carries the integral
    values, and the three values that are not finite, which [Number(...)]
    can produce from stored text and which [JSON.stringify] writes as
    [null]. *)

Inductive number : Type :=
| NaN
| NegInf
| Fin (z : Z)
| PosInf.

Module Num.

(** [a - b] *)
Definition sub (a b : number) : number :=
  match a, b with
  | NaN, _ | _, NaN => NaN
  | Fin x, Fin y => Fin (x - y)
  | PosInf, PosInf | NegInf, NegInf => NaN
  | PosInf, _ | _, NegInf => PosInf
  | NegInf, _ | _, PosInf => NegInf
  end.

(** [v > 0]: how [Array.prototype.sort] reads a comparator result that
    asks for a swap; [NaN] counts as zero there. *)
Definition positive (v : number) : bool :=
  match v with
  | PosInf => true
  | Fin z => (0 <? z)%Z
  | NaN | NegInf => false
  end.

Definition isFinite (v : number) : bool :=
  match v with Fin _ => true | _ => false end.

(** [a <= b]; false as soon as one side is [NaN]. *)
Definition leb (a b : number) : bool :=
  match a, b with
  | NaN, _ | _, NaN => false
  | NegInf, _ | _, PosInf => true
  | Fin x, Fin y => (x <=? y)%Z
  | _, _ => false
  end.

Definition le (a b : number) : Prop := leb a b = true.

End Num.

(* ================================================================= *)
(** ** JSON values

    What [JSON.parse] returns: the value tree of the stored text.  An
    object keeps its members in textual order; when a key is repeated the
    later member is the one the object ends up with ([own]).  Numbers
    are the integral ones, as for [number]. *)

Inductive json : Type :=
| JNull
| JBool (b : bool)
| JNum (z : Z)
| JStr (s : string)
| JArr (elts : list json)
| JObj (props : list (string * json)).

(** Induction on a value that reaches the elements of arrays and the
    member values of objects. *)
Section JsonInduction.
Variable Q : json -> Prop.
Hypothesis Hnull : Q JNull.
Hypothesis Hbool : forall b, Q (JBool b).
Hypothesis Hnum : forall z, Q (JNum z).
Hypothesis Hstr : forall s, Q (JStr s).
Hypothesis Harr : forall elts, Forall Q elts -> Q (JArr elts).
Hypothesis Hobj :
  forall props, Forall (fun kv => Q (snd kv)) props -> Q (JObj props).

Fixpoint json_nested_ind (j : json) : Q j :=
  match j with
  | JNull => Hnull
  | JBool b => Hbool b
  | JNum z => Hnum z
  | JStr s => Hstr s
  | JArr elts =>
      Harr elts
        ((fix all (l : list json) : Forall Q l :=
            match l with
            | [] => Forall_nil _
            | e :: rest => Forall_cons e (json_nested_ind e) (all rest)
            end) elts)
  | JObj props =>
      Hobj props
        ((fix all (l : list (string * json))
            : Forall (fun kv => Q (snd kv)) l :=
            match l with
            | [] => Forall_nil _
            | kv :: rest =>
                Forall_cons kv (json_nested_ind (snd kv)) (all rest)
            end) props)
  end.
End JsonInduction.

(* ================================================================= *)
(** ** The platform

    Engine- and locale-dependent primitives, taken as given. [JSON_parse]
    answers [None] where [JSON.parse] throws a [SyntaxError];
    [JSON_stringify] prints a value tree (the tree of a task is
    [taskToJSON] below); [localeCompare] is read through its sign
    only. *)

Class Platform : Type := {
  localeCompare : string -> string -> Z;
  NumberToString : number -> string;
  StringToNumber : string -> number;
  JSON_parse : string -> option json;
  JSON_stringify : json -> string
}.

(** What the proofs rely on: the collation is a total preorder, and the
    JSON codec reads back what it wrote and never writes the empty
    text. *)
Class PlatformLaws (P : Platform) : Prop := {
  localeCompare_antisym :
    forall a b, Z.sgn (localeCompare a b) = (- Z.sgn (localeCompare b a))%Z;
  localeCompare_trans :
    forall a b c,
      (localeCompare a b <= 0)%Z -> (localeCompare b c <= 0)%Z ->
      (localeCompare a c <= 0)%Z;
  JSON_parse_stringify :
    forall j, JSON_parse (JSON_stringify j) = Some j;
  JSON_stringify_nonempty :
    forall j, JSON_stringify j <> EmptyString
}.

(* ================================================================= *)
(** ** The world: clock and identifier oracles

    [Date.now()], [crypto.randomUUID()] and [Math.random()] answer from
    the environment.  Each is a stream indexed by the number of calls
    made so far; [randomUUID] is [None] on engines without
    [crypto.randomUUID].  [Math.random()] only ever appears inside a
    template literal, so the stream gives its printed text. *)

Record World : Type := mkWorld {
  randomUUID : option (nat -> string);
  uuidCalls : nat;
  clock : nat -> Z;
  clockReads : nat;
  randomText : nat -> string;
  randomDraws : nat
}.

(** Computations that consult the world and may throw.  The world after
    a throw is kept: the calls made before it did happen. *)
Definition Eff (A : Type) : Type := World -> option A * World.

Definition ret {A} (a : A) : Eff A := fun w => (Some a, w).

Definition throw {A} : Eff A := fun w => (None, w).

Definition bind {A B} (m : Eff A) (k : A -> Eff B) : Eff B :=
  fun w =>
    match m w with
    | (Some a, w') => k a w'
    | (None, w') => (None, w')
    end.

Notation "x <- m ;; k" := (bind m (fun x => k))
  (at level 61, m at next level, right associativity).

(** A coercion that may raise a [TypeError]. *)
Definition orThrow {A} (o : option A) : Eff A :=
  match o with Some a => ret a | None => throw end.

(** [arr.map(f)] with an effectful callback, left to right. *)
Fixpoint mapM {A B} (f : A -> Eff B) (l : list A) : Eff (list B) :=
  match l with
  | [] => ret []
  | x :: rest => y <- f x ;; ys <- mapM f rest ;; ret (y :: ys)
  end.

(** [Date.now()] *)
Definition Date_now (w : World) : Z * World :=
  (clock w (clockReads w),
   mkWorld (randomUUID w) (uuidCalls w) (clock w) (S (clockReads w))
           (randomText w) (randomDraws w)).

(** [crypto.randomUUID?.()]: [undefined] when the method is missing. *)
Definition crypto_randomUUID (w : World) : option string * World :=
  match randomUUID w with
  | None => (None, w)
  | Some gen =>
      (Some (gen (uuidCalls w)),
       mkWorld (randomUUID w) (S (uuidCalls w)) (clock w) (clockReads w)
               (randomText w) (randomDraws w))
  end.

(** [Math.random()] as printed by a template literal. *)
Definition Math_random (w : World) : string * World :=
  (randomText w (randomDraws w),
   mkWorld (randomUUID w) (uuidCalls w) (clock w) (clockReads w)
           (randomText w) (S (randomDraws w))).

(** A call that consults the world and cannot throw. *)
Definition liftW {A} (f : World -> A * World) : Eff A :=
  fun w => let (a, w') := f w in (Some a, w').

(* ================================================================= *)
(** ** Coercions on parsed values

    [String(v)], [Number(v)] and [Boolean(v)] on a value that came out of
    [JSON.parse].  Such a value holds no function, so an object that has
    an own member called [toString] cannot be turned into a primitive:
    the inherited method is shadowed by something that is not callable,
    [valueOf] gives back the object, and the engine raises a [TypeError]
    ([None] here).  An array is printed by [join], which prints [null]
    elements as nothing. *)

Module Coerce.

(** The own member [key] of an object with members [props]. *)
Fixpoint own (key : string) (props : list (string * json)) : option json :=
  match props with
  | [] => None
  | (k, v) :: rest =>
      match own key rest with
      | Some later => Some later
      | None => if String.eqb key k then Some v else None
      end
  end.

(** [t.key] for the member names this script reads ([id], [title],
    [completed], [createdAt], [tags]): none of them is found on a
    prototype, so primitives and arrays answer [undefined] (inner
    [None]).  Reading a member of [null] throws (outer [None]). *)
Definition get (t : json) (key : string) : option (option json) :=
  match t with
  | JNull => None
  | JObj props => Some (own key props)
  | _ => Some None
  end.

(** [v ?? ...]: [Some] of the value unless it is [undefined] or
    [null]. *)
Definition notNullish (v : option json) : option json :=
  match v with
  | None | Some JNull => None
  | Some x => Some x
  end.

Definition isArray (v : option json) : bool :=
  match v with Some (JArr _) => true | _ => false end.

(** The texts [join] puts between the separators: nothing for a
    [null] element, the printed element otherwise. *)
Section Pieces.
Variable print : json -> option string.

Fixpoint pieces (l : list json) : option (list string) :=
  match l with
  | [] => Some []
  | e :: rest =>
      match (match e with JNull => Some EmptyString | _ => print e end),
            pieces rest with
      | Some s, Some ss => Some (s :: ss)
      | _, _ => None
      end
  end.
End Pieces.

Section WithPlatform.
Context {P : Platform}.

(** [String(v)] *)
Fixpoint ToString (v : json) : option string :=
  match v with
  | JNull => Some "null"
  | JBool true => Some "true"
  | JBool false => Some "false"
  | JNum z => Some (NumberToString (Fin z))
  | JStr s => Some s
  | JArr elts =>
      option_map (Str.join ",") (pieces ToString elts)
  | JObj props =>
      match own "toString" props with
      | Some _ => None
      | None => Some "[object Object]"
      end
  end.

(** [Number(v)] *)
Definition ToNumber (v : json) : option number :=
  match v with
  | JNull => Some (Fin 0)
  | JBool true => Some (Fin 1)
  | JBool false => Some (Fin 0)
  | JNum z => Some (Fin z)
  | JStr s => Some (StringToNumber s)
  | JArr _ | JObj _ => option_map StringToNumber (ToString v)
  end.

End WithPlatform.

(** [Boolean(v)], [undefined] included. *)
Definition ToBoolean (v : option json) : bool :=
  match v with
  | None | Some JNull => false
  | Some (JBool b) => b
  | Some (JNum z) => negb (z =? 0)%Z
  | Some (JStr s) => Str.truthy s
  | Some (JArr _) | Some (JObj _) => true
  end.

End Coerce.

(* ================================================================= *)
(** ** Tasks *)

(** The [Task] typedef of the script. *)
Record Task : Type := mkTask {
  id : string;
  title : string;
  completed : bool;
  createdAt : number;
  tags : list string
}.

(** [{ ...t, completed: !t.completed }] *)
Definition flipCompleted (t : Task) : Task :=
  mkTask (id t) (title t) (negb (completed t)) (createdAt t) (tags t).

(** How [JSON.stringify] writes a task: the members in the order the
    object literal created them, a [createdAt] that is not finite as
    [null]. *)
Definition taskToJSON (t : Task) : json :=
  JObj [ ("id", JStr (id t));
         ("title", JStr (title t));
         ("completed", JBool (completed t));
         ("createdAt", match createdAt t with Fin z => JNum z | _ => JNull end);
         ("tags", JArr (map JStr (tags t))) ].

Definition tasksToJSON (ts : list Task) : json := JArr (map taskToJSON ts).

(* ================================================================= *)
(** ** The array store

    Arrays are cells of a store; a variable holds a location.  [alloc]
    is what an array literal, a spread copy, [filter] and [map] do;
    [write] is what [push] and [sort] do to the array they are called
    on. *)

Definition loc : Type := nat.

Definition Store : Type := list (list Task).

Definition read (h : Store) (l : loc) : list Task := nth l h [].

Definition alloc (h : Store) (v : list Task) : loc * Store :=
  (List.length h, h ++ [v]).

Fixpoint write (h : Store) (l : loc) (v : list Task) : Store :=
  match h, l with
  | [], _ => []
  | _ :: rest, O => v :: rest
  | c :: rest, S l' => c :: write rest l' v
  end.

Arguments read : simpl never.
Arguments alloc : simpl never.
Arguments write : simpl never.

(* ================================================================= *)
(** ** Browser storage and the page *)

Definition STORAGE_KEY : string := "light_todo_tasks_v1".

(** [window.localStorage].  [accepts] says which writes the browser
    takes (quota, private mode); [setItemCalls] counts the calls of
    [setItem], taken or not, so that "nothing was written" can be told
    from "the same text was written again". *)
Record Storage : Type := mkStorage {
  items : string -> option string;
  accepts : string -> string -> bool;
  setItemCalls : nat
}.

Definition getItem (s : Storage) (key : string) : option string := items s key.

(** [setItem(key, value)]: the flag is [false] when the call throws. *)
Definition setItem (s : Storage) (key value : string) : bool * Storage :=
  if accepts s key value
  then (true,
        mkStorage (fun k => if String.eqb k key then Some value else items s k)
                  (accepts s) (S (setItemCalls s)))
  else (false, mkStorage (items s) (accepts s) (S (setItemCalls s))).

Inductive SortMode : Type :=
| SortCreatedAt   (* "createdAt" *)
| SortTag.        (* "tag" *)

(** The two texts of the empty state. *)
Inductive Message : Type :=
| NothingHereYet
| NoTasksWithTag (label : string).

(** Children of [elements.list] after a render. *)
Inductive ListContent : Type :=
| Cleared
| EmptyState (m : Message)
| Items (shown : list Task).

(** The elements the script writes to.  [tagFilterUi] is [None] when the
    page lacks the filter status elements; otherwise it holds whether the
    status is hidden and the text of the filter name. *)
Record Dom : Type := mkDom {
  listContent : ListContent;
  countText : string;
  clearCompletedDisabled : bool;
  tagFilterUi : option (bool * string)
}.

(** The module-level variables, the array store, and the environment. *)
Record State : Type := mkState {
  heap : Store;
  tasks : loc;
  sortMode : SortMode;
  activeTagFilter : option string;
  activeTagLabel : string;
  dom : Dom;
  storage : Storage;
  world : World
}.

(** The task collection: the array [tasks] points to. *)
Definition theTasks (st : State) : list Task := read (heap st) (tasks st).

Definition setHeap (st : State) (h : Store) : State :=
  mkState h (tasks st) (sortMode st) (activeTagFilter st) (activeTagLabel st)
          (dom st) (storage st) (world st).

Definition setTasks (st : State) (l : loc) : State :=
  mkState (heap st) l (sortMode st) (activeTagFilter st) (activeTagLabel st)
          (dom st) (storage st) (world st).

Definition setSortMode (st : State) (m : SortMode) : State :=
  mkState (heap st) (tasks st) m (activeTagFilter st) (activeTagLabel st)
          (dom st) (storage st) (world st).

Definition setFilter (st : State) (f : option string) (label : string) : State :=
  mkState (heap st) (tasks st) (sortMode st) f label
          (dom st) (storage st) (world st).

Definition setDom (st : State) (d : Dom) : State :=
  mkState (heap st) (tasks st) (sortMode st) (activeTagFilter st)
          (activeTagLabel st) d (storage st) (world st).

Definition setStorage (st : State) (s : Storage) : State :=
  mkState (heap st) (tasks st) (sortMode st) (activeTagFilter st)
          (activeTagLabel st) (dom st) s (world st).

Definition setWorld (st : State) (w : World) : State :=
  mkState (heap st) (tasks st) (sortMode st) (activeTagFilter st)
          (activeTagLabel st) (dom st) (storage st) w.

(** [tasks = <new array>] *)
Definition assignTasks (st : State) (v : list Task) : State :=
  let (l, h) := alloc (heap st) v in setTasks (setHeap st h) l.

(** The state right after the module-level declarations have run:
    [tasks = []], [sortMode = "createdAt"], no filter. *)
Definition boot (d : Dom) (s : Storage) (w : World) : State :=
  mkState [[]] 0 SortCreatedAt None EmptyString d s w.

(** How a block of statements ends: normally, or by a throw, with the
    state reached. *)
Inductive Outcome : Type :=
| Normal (st : State)
| Thrown (st : State).

(* ================================================================= *)
(** ** [Array.prototype.sort]

    The engine's sort is stable and takes a comparator result that is
    positive as "the first goes after the second", anything else ([NaN]
    too) as "leave them".  Insertion from the right is such a sort; with
    a consistent comparator every such sort gives the same array. *)

Section Sort.
Context {A : Type} (cmp : A -> A -> number).

Fixpoint insert (x : A) (l : list A) : list A :=
  match l with
  | [] => [x]
  | y :: rest =>
      if Num.positive (cmp x y) then y :: insert x rest else x :: l
  end.

Fixpoint sort (l : list A) : list A :=
  match l with
  | [] => []
  | x :: rest => insert x (sort rest)
  end.

(** [before a b]: the comparator does not ask for [a] to go after
    [b]. *)
Definition before (a b : A) : Prop := Num.positive (cmp a b) = false.

End Sort.

(** What the page can ask of the script after [init]: the form, the
    buttons and check boxes of a task, the tag pills, the filter (set or
    cleared by label) and the sort selector. *)
Inductive Action : Type :=
| Add (theTitle tagsInput : string)
| Remove (theId : string)
| Toggle (theId : string)
| ClearCompleted
| ClickTag (tag : string)
| SetTagFilter (tagLabel : option string)
| SetSort (value : string).

(* ================================================================= *)
(** ** The script *)

Section Script.
Context {P : Platform}.

(** [crypto.randomUUID?.() ?? Date.now()], printed by [String]: the
    identifier given to a stored element that has none. *)
Definition loadId (w : World) : string * World :=
  match crypto_randomUUID w with
  | (Some u, w1) => (u, w1)
  | (None, w1) =>
      let (now, w2) := Date_now w1 in (NumberToString (Fin now), w2)
  end.

(** The callback of [parsed.map] in [loadTasks]: one stored element to
    one task.  Members are read in the order of the object literal;
    the first read throws on [null]. *)
Definition coerceTask (t : json) : Eff Task :=
  rawId <- orThrow (Coerce.get t "id") ;;
  theId <- match Coerce.notNullish rawId with
           | Some v => orThrow (Coerce.ToString v)
           | None => liftW loadId
           end ;;
  rawTitle <- orThrow (Coerce.get t "title") ;;
  theTitle <- match Coerce.notNullish rawTitle with
              | Some v => orThrow (Coerce.ToString v)
              | None => ret EmptyString
              end ;;
  rawCompleted <- orThrow (Coerce.get t "completed") ;;
  rawCreatedAt <- orThrow (Coerce.get t "createdAt") ;;
  theCreatedAt <- match Coerce.notNullish rawCreatedAt with
                  | Some v => orThrow (Coerce.ToNumber v)
                  | None => now <- liftW Date_now ;; ret (Fin now)
                  end ;;
  rawTags <- orThrow (Coerce.get t "tags") ;;
  theTags <- match rawTags with
             | Some (JArr elts) =>
                 texts <- mapM (fun tag =>
                                  s <- orThrow (Coerce.ToString tag) ;;
                                  ret (Str.trim s)) elts ;;
                 ret (filter Str.truthy texts)
             | _ => ret []
             end ;;
  ret (mkTask theId (Str.trim theTitle) (Coerce.ToBoolean rawCompleted)
              theCreatedAt theTags).

(** The [try] block of [loadTasks]: it ends normally or throws, and
    either way the world has moved as far as the calls went. *)
Definition loadTasksTry (st : State) : Outcome :=
  match getItem (storage st) STORAGE_KEY with
  | None => Normal st
  | Some raw =>
      if negb (Str.truthy raw) then Normal st
      else
        match JSON_parse raw with
        | None => Thrown st
        | Some (JArr elts) =>
            match mapM coerceTask elts (world st) with
            | (Some ts, w) => Normal (assignTasks (setWorld st w) ts)
            | (None, w) => Thrown (setWorld st w)
            end
        | Some _ => Normal st
        end
  end.

(** [try { ... } catch { tasks = []; }] *)
Definition loadTasks (st : State) : State :=
  match loadTasksTry st with
  | Normal st' => st'
  | Thrown st' => assignTasks st' []
  end.

Definition saveTasks (st : State) : State :=
  let (_, s) := setItem (storage st) STORAGE_KEY
                        (JSON_stringify (tasksToJSON (theTasks st))) in
  setStorage st s.

(** The text [updateTaskCount] computes from the two counts. *)
Definition countSummary (remaining total : nat) : string :=
  if (0 <? total)%nat then
    if (remaining =? 0)%nat then "All done"
    else (Str.ofNat remaining ++ " of " ++ Str.ofNat total ++ " task"
            ++ (if (total =? 1)%nat then "" else "s") ++ " left")%string
  else "No tasks".

Definition updateTaskCount (st : State) : State :=
  let remaining := List.length (filter (fun t => negb (completed t)) (theTasks st)) in
  let total := List.length (theTasks st) in
  setDom st
    (mkDom (listContent (dom st))
           (countSummary remaining total)
           (forallb (fun t => negb (completed t)) (theTasks st))
           (tagFilterUi (dom st))).

(** [a.tags && a.tags[0] ? a.tags[0] : ""], lowercased. *)
Definition sortTag (a : Task) : string :=
  Str.toLowerCase
    match tags a with
    | first :: _ => if Str.truthy first then first else EmptyString
    | [] => EmptyString
    end.

(** The comparator handed to [sort] in [renderTasks]. *)
Definition compareTasks (mode : SortMode) (a b : Task) : number :=
  match mode with
  | SortTag =>
      let aTag := sortTag a in
      let bTag := sortTag b in
      if negb (Str.truthy aTag) && negb (Str.truthy bTag)
      then Num.sub (createdAt a) (createdAt b)
      else if negb (Str.truthy aTag) then Fin 1
      else if negb (Str.truthy bTag) then Fin (-1)
      else
        let tagCompare := localeCompare aTag bTag in
        if negb (tagCompare =? 0)%Z then Fin tagCompare
        else Num.sub (createdAt a) (createdAt b)
  | SortCreatedAt => Num.sub (createdAt a) (createdAt b)
  end.

(** The predicate of [tasks.filter] in [renderTasks]. *)
Definition matchesFilter (f : string) (t : Task) : bool :=
  existsb (fun tag => String.eqb (Str.toLowerCase tag) f) (tags t).

Definition renderTasks (st : State) : State :=
  let st0 := setDom st (mkDom Cleared (countText (dom st))
                              (clearCompletedDisabled (dom st))
                              (tagFilterUi (dom st))) in
  let (visibleTasks, h1) :=
    match activeTagFilter st0 with
    | None => (tasks st0, heap st0)
    | Some f => alloc (heap st0) (filter (matchesFilter f) (theTasks st0))
    end in
  let st1 := setHeap st0 h1 in
  let st2 :=
    if (List.length (read h1 visibleTasks) =? 0)%nat then
      let message :=
        match activeTagFilter st1 with
        | Some f =>
            if Str.truthy f && Str.truthy (activeTagLabel st1)
            then NoTasksWithTag (activeTagLabel st1)
            else NothingHereYet
        | None => NothingHereYet
        end in
      setDom st1 (mkDom (EmptyState message) (countText (dom st1))
                        (clearCompletedDisabled (dom st1))
                        (tagFilterUi (dom st1)))
    else
      let (sorted, h2) := alloc h1 (read h1 visibleTasks) in
      let h3 := write h2 sorted
                      (sort (compareTasks (sortMode st1)) (read h2 sorted)) in
      setDom (setHeap st1 h3)
             (mkDom (Items (read h3 sorted)) (countText (dom st1))
                    (clearCompletedDisabled (dom st1))
                    (tagFilterUi (dom st1))) in
  updateTaskCount st2.

(** [tagLabel] is [None] for [null]. *)
Definition setActiveTagFilter (st : State) (tagLabel : option string) : State :=
  let st1 :=
    match tagLabel with
    | None => setFilter st None EmptyString
    | Some label =>
        if String.eqb label EmptyString then setFilter st None EmptyString
        else setFilter st (Some (Str.toLowerCase label)) label
    end in
  let st2 :=
    match tagFilterUi (dom st1) with
    | Some _ =>
        let active := match activeTagFilter st1 with
                      | Some f => Str.truthy f
                      | None => false
                      end in
        setDom st1
          (mkDom (listContent (dom st1)) (countText (dom st1))
                 (clearCompletedDisabled (dom st1))
                 (Some (if active then (false, activeTagLabel st1)
                        else (true, EmptyString))))
    | None => st1
    end in
  renderTasks st2.

Definition parseTags (input : string) : list string :=
  if negb (Str.truthy input) then []
  else filter Str.truthy (map Str.trim (Str.split "," input)).

(** The [id] of a new task:
    [crypto.randomUUID?.() ?? `${Date.now()}-${Math.random()}`]. *)
Definition newId (w : World) : string * World :=
  match crypto_randomUUID w with
  | (Some u, w1) => (u, w1)
  | (None, w1) =>
      let (now, w2) := Date_now w1 in
      let (r, w3) := Math_random w2 in
      ((NumberToString (Fin now) ++ "-" ++ r)%string, w3)
  end.

Definition addTask (st : State) (title tagsInput : string) : State :=
  let trimmed := Str.trim title in
  if negb (Str.truthy trimmed) then st
  else
    let (theId, w1) := newId (world st) in
    let (now, w2) := Date_now w1 in
    let newTask := mkTask theId trimmed false (Fin now) (parseTags tagsInput) in
    let st1 := setWorld st w2 in
    let st2 := setHeap st1 (write (heap st1) (tasks st1)
                                  (theTasks st1 ++ [newTask])) in
    renderTasks (saveTasks st2).

Definition removeTask (st : State) (theId : string) : State :=
  let st1 := assignTasks st
               (filter (fun t => negb (String.eqb (id t) theId)) (theTasks st)) in
  renderTasks (saveTasks st1).

Definition toggleTaskCompleted (st : State) (theId : string) : State :=
  let st1 := assignTasks st
               (map (fun t => if String.eqb (id t) theId
                              then flipCompleted t else t) (theTasks st)) in
  renderTasks (saveTasks st1).

Definition clearCompletedTasks (st : State) : State :=
  let st1 := assignTasks st
               (filter (fun t => negb (completed t)) (theTasks st)) in
  renderTasks (saveTasks st1).

(** [init] without the listener registrations. *)
Definition init (st : State) : State := renderTasks (loadTasks st).

(** The [click] listener of a tag pill: a second click on the tag that
    is the filter clears the filter. *)
Definition onTagClick (st : State) (tag : string) : State :=
  match activeTagFilter st with
  | Some f =>
      if Str.truthy f && String.eqb f (Str.toLowerCase tag)
      then setActiveTagFilter st None
      else setActiveTagFilter st (Some tag)
  | None => setActiveTagFilter st (Some tag)
  end.

(** The [change] listener of the sort selector. *)
Definition onSortChange (st : State) (value : string) : State :=
  renderTasks
    (setSortMode st (if String.eqb value "tag" then SortTag else SortCreatedAt)).

(** One user intent, handled to completion. *)
Definition step (st : State) (a : Action) : State :=
  match a with
  | Add theTitle tagsInput => addTask st theTitle tagsInput
  | Remove theId => removeTask st theId
  | Toggle theId => toggleTaskCompleted st theId
  | ClearCompleted => clearCompletedTasks st
  | ClickTag tag => onTagClick st tag
| SetTagFilter tagLabel => setActiveTagFilter st tagLabel
  | SetSort value => onSortChange st value
  end.

(** A session: the intents in the order the event queue delivers
    them. *)
Definition run (st : State) (acts : list Action) : State :=
  fold_left step acts st.

End Script.


(* ================================================================= *)
(** ** Vocabulary of the statements *)

(** [tasks] points into the store.  It holds after the declarations
    ([boot]) and every procedure keeps it. *)
Definition valid (st : State) : Prop := tasks st < List.length (heap st).

(** The filter variables as [setActiveTagFilter] leaves them: no filter
    and no label, or a label that is not empty and its lowercase form as
    the filter. *)
Definition filterConsistent (st : State) : Prop :=
  match activeTagFilter st with
  | None => activeTagLabel st = EmptyString
  | Some f =>
      f = Str.toLowerCase (activeTagLabel st) /\
      activeTagLabel st <> EmptyString
  end.

(** The tasks a render considers for display. *)
Definition candidates (st : State) : list Task :=
  match activeTagFilter st with
  | None => theTasks st
  | Some f => filter (matchesFilter f) (theTasks st)
  end.

(** A task is on the page when the list shows items and it is one of
    them. *)
Definition displayed (st : State) (t : Task) : Prop :=
  exists shown, listContent (dom st) = Items shown /\ In t shown.

(** Well-formed tasks: a trimmed title that is not empty, a finite
    [createdAt], tags that are trimmed and not empty.  ([id] is a string
    by its type.) *)
Definition trimmedNonEmpty (s : string) : Prop :=
  Str.trim s = s /\ s <> EmptyString.

Definition wellFormedTask (t : Task) : Prop :=
  trimmedNonEmpty (title t) /\
  Num.isFinite (createdAt t) = true /\
  Forall trimmedNonEmpty (tags t).

Definition wellFormed (ts : list Task) : Prop := Forall wellFormedTask ts.

(** The same as a test. *)
Definition trimmedNonEmptyb (s : string) : bool :=
  String.eqb (Str.trim s) s && Str.truthy s.

Definition wellFormedb (ts : list Task) : bool :=
  forallb (fun t => trimmedNonEmptyb (title t)
                    && Num.isFinite (createdAt t)
                    && forallb trimmedNonEmptyb (tags t)) ts.

(** A task whose [createdAt] can be ordered. *)
Definition timed (t : Task) : Prop := createdAt t <> NaN.

(** The first tag of a task, the empty string when there is none. *)
Definition firstTag (t : Task) : string := hd EmptyString (tags t).

(** A task counts as untagged for sorting when it has no first tag. *)
Definition untagged (t : Task) : Prop := firstTag t = EmptyString.

Definition oldestFirst (a b : Task) : Prop :=
  Num.le (createdAt a) (createdAt b).

Section Orders.
Context {P : Platform}.

(** The by-tag order in the words of the specification: untagged after
    tagged; untagged among themselves oldest first; tagged by the
    collation of the lowercased first tag, oldest first on a tie. *)
Definition byFirstTag (a b : Task) : Prop :=
  (untagged a /\ untagged b /\ oldestFirst a b)
  \/ (~ untagged a /\ untagged b)
  \/ (~ untagged a /\ ~ untagged b /\
      let ka := Str.toLowerCase (firstTag a) in
      let kb := Str.toLowerCase (firstTag b) in
      ((localeCompare ka kb < 0)%Z
       \/ (localeCompare ka kb = 0%Z /\ oldestFirst a b))).

(** What [elements.list] holds after a render. *)
Definition renderedList (st : State) : ListContent :=
  match candidates st with
  | [] =>
      EmptyState
        match activeTagFilter st with
        | Some f =>
            if Str.truthy f && Str.truthy (activeTagLabel st)
            then NoTasksWithTag (activeTagLabel st)
            else NothingHereYet
        | None => NothingHereYet
        end
  | _ :: _ => Items (sort (compareTasks (sortMode st)) (candidates st))
  end.

Definition displayOrder (mode : SortMode) : Task -> Task -> Prop :=
  match mode with
  | SortCreatedAt => oldestFirst
  | SortTag => byFirstTag
  end.

End Orders.

(** The count summary in the words of the specification, from the total
    [T] and the number [R] of tasks that are not completed. *)
Definition specSummary (T R : nat) : string :=
  match T with
  | 0 => "No tasks"
  | _ =>
      match R with
      | 0 => "All done"
      | _ => (Str.ofNat R ++ " of " ++ Str.ofNat T ++
              (match T with 1 => " task" | _ => " tasks" end) ++ " left")%string
      end
  end.

Definition incomplete (ts : list Task) : nat :=
  List.length (filter (fun t => negb (completed t)) ts).

(** *** Loading, in the words of the specification *)

Section LoadSpec.
Context {P : Platform}.

(** A value that [String] can print. *)
Definition textable (v : json) : bool :=
  match Coerce.ToString v with Some _ => true | None => false end.

(** A stored record: an object all of whose member values can be
    printed. *)
Definition storedRecord (r : json) : bool :=
  match r with
  | JObj props => forallb (fun kv => textable (snd kv)) props
  | _ => false
  end.

Definition text (v : json) : string :=
  match Coerce.ToString v with Some s => s | None => EmptyString end.

Definition numberOf (v : json) : number :=
  match Coerce.ToNumber v with Some n => n | None => NaN end.

(** Field by field: a missing [id] is replaced by a generated one;
    [title] is turned into text and trimmed; [completed] into a
    boolean, false when missing; [createdAt] into a number, the
    current time when missing; [tags] into the trimmed texts of its
    elements without the empty ones, and into no tags at all when it
    is not a sequence. *)
Definition specCoerce (props : list (string * json)) (w : World) : Task * World :=
  let present key := Coerce.notNullish (Coerce.own key props) in
  let (theId, w1) :=
    match present "id" with
    | Some v => (text v, w)
    | None => loadId w
    end in
  let theTitle :=
    Str.trim match present "title" with
             | Some v => text v
             | None => EmptyString
             end in
  let theCompleted := Coerce.ToBoolean (Coerce.own "completed" props) in
  let (theCreatedAt, w2) :=
    match present "createdAt" with
    | Some v => (numberOf v, w1)
    | None => let (now, w') := Date_now w1 in (Fin now, w')
    end in
  let theTags :=
    match Coerce.own "tags" props with
    | Some (JArr elts) =>
        filter Str.truthy (map (fun e => Str.trim (text e)) elts)
    | _ => []
    end in
  (mkTask theId theTitle theCompleted theCreatedAt theTags, w2).

(** The records of a stored sequence, coerced one after the other. *)
Fixpoint specLoad (elts : list json) (w : World) : list Task * World :=
  match elts with
  | [] => ([], w)
  | JObj props :: rest =>
      let (t, w1) := specCoerce props w in
      let (ts, w2) := specLoad rest w1 in
      (t :: ts, w2)
  | _ :: rest => specLoad rest w
  end.

End LoadSpec.

(* ================================================================= *)
(** ** A reference platform

    One platform that meets [PlatformLaws], to evaluate the script on
    concrete inputs: code-unit order as the collation, decimal integers
    for numbers, and a JSON codec for the compact text that
    [JSON.stringify] writes (a quote or a backslash inside a string is
    preceded by a backslash). *)

Module Ref.

Definition dquote : ascii := Eval compute in ascii_of_nat 34.
Definition backslash : ascii := Eval compute in ascii_of_nat 92.

Definition compareText (a b : string) : Z :=
  match String.compare a b with
  | Lt => (-1)%Z
  | Eq => 0%Z
  | Gt => 1%Z
  end.

(** *** Numbers *)

Definition isDigit (c : ascii) : bool :=
  let n := nat_of_ascii c in ((48 <=? n) && (n <=? 57))%nat.

Definition digits (n : N) : string := NilEmpty.string_of_uint (N.to_uint n).

Definition printZ (z : Z) : string :=
  if (z <? 0)%Z then String "-" (digits (Z.abs_N z)) else digits (Z.abs_N z).

Definition printNumber (v : number) : string :=
  match v with
  | NaN => "NaN"
  | PosInf => "Infinity"
  | NegInf => "-Infinity"
  | Fin z => printZ z
  end.

(** The longest run of digits at the front, and what follows it. *)
Fixpoint spanDigits (s : string) : string * string :=
  match s with
  | EmptyString => (EmptyString, EmptyString)
  | String c s' =>
      if isDigit c
      then let (d, r) := spanDigits s' in (String c d, r)
      else (EmptyString, s)
  end.

Definition parseNat (s : string) : option (N * string) :=
  match spanDigits s with
  | (EmptyString, _) => None
  | (ds, rest) =>
      match NilEmpty.uint_of_string ds with
      | Some d => Some (N.of_uint d, rest)
      | None => None
      end
  end.

Definition parseNumber (s : string) : option (Z * string) :=
  match s with
  | EmptyString => None
  | String c s' =>
      if Ascii.eqb c "-" then
        match parseNat s' with
        | Some (n, rest) => Some ((- Z.of_N n)%Z, rest)
        | None => None
        end
      else
        match parseNat s with
        | Some (n, rest) => Some (Z.of_N n, rest)
        | None => None
        end
  end.

(** [Number(s)] on the texts the model can answer with a number of its
    own: an optional sign and digits, the infinities, the empty text;
    anything else is [NaN]. *)
Definition parseNumberText (s : string) : number :=
  let t := Str.trim s in
  if String.eqb t "" then Fin 0
  else if String.eqb t "Infinity" || String.eqb t "+Infinity" then PosInf
  else if String.eqb t "-Infinity" then NegInf
  else match parseNumber t with
       | Some (z, EmptyString) => Fin z
       | _ => NaN
       end.

(** *** JSON text *)

Fixpoint escape (s : string) : string :=
  match s with
  | EmptyString => EmptyString
  | String c s' =>
      if Ascii.eqb c dquote || Ascii.eqb c backslash
      then String backslash (String c (escape s'))
      else String c (escape s')
  end.

Definition quote (s : string) : string :=
  String dquote (escape s ++ String dquote EmptyString)%string.

Fixpoint commaSep (l : list string) : string :=
  match l with
  | [] => EmptyString
  | [x] => x
  | x :: rest => (x ++ String "," (commaSep rest))%string
  end.

Fixpoint print (j : json) : string :=
  match j with
  | JNull => "null"
  | JBool true => "true"
  | JBool false => "false"
  | JNum z => printZ z
  | JStr s => quote s
  | JArr elts => String "[" (commaSep (map print elts) ++ "]")%string
  | JObj props =>
      String "{"
        (commaSep (map (fun kv => (quote (fst kv) ++ String ":" (print (snd kv)))%string)
                       props) ++ "}")%string
  end.

(** The text up to the closing quote, unescaped, and what follows the
    quote. *)
Fixpoint parseString (s : string) : option (string * string) :=
  match s with
  | EmptyString => None
  | String c s' =>
      if Ascii.eqb c dquote then Some (EmptyString, s')
      else if Ascii.eqb c backslash then
        match s' with
        | EmptyString => None
        | String e s'' =>
            match parseString s'' with
            | Some (str, rest) => Some (String e str, rest)
            | None => None
            end
        end
      else
        match parseString s' with
        | Some (str, rest) => Some (String c str, rest)
        | None => None
        end
  end.

Fixpoint stripPrefix (p s : string) : option string :=
  match p, s with
  | EmptyString, _ => Some s
  | String a p', String b s' => if Ascii.eqb a b then stripPrefix p' s' else None
  | String _ _, EmptyString => None
  end.

Fixpoint parseValue (fuel : nat) (s : string) : option (json * string) :=
  match fuel with
  | O => None
  | S fuel' =>
      match parseNumber s with
      | Some (z, rest) => Some (JNum z, rest)
      | None =>
      match stripPrefix "null" s with
      | Some rest => Some (JNull, rest)
      | None =>
      match stripPrefix "true" s with
      | Some rest => Some (JBool true, rest)
      | None =>
      match stripPrefix "false" s with
      | Some rest => Some (JBool false, rest)
      | None =>
      match stripPrefix "[]" s with
      | Some rest => Some (JArr [], rest)
      | None =>
      match stripPrefix "{}" s with
      | Some rest => Some (JObj [], rest)
      | None =>
      match s with
      | EmptyString => None
      | String c s' =>
          if Ascii.eqb c dquote then
            match parseString s' with
            | Some (str, rest) => Some (JStr str, rest)
            | None => None
            end
          else if Ascii.eqb c "[" then
            match parseElems fuel' s' with
            | Some (elts, rest) => Some (JArr elts, rest)
            | None => None
            end
          else if Ascii.eqb c "{" then
            match parseMembers fuel' s' with
            | Some (props, rest) => Some (JObj props, rest)
            | None => None
            end
          else None
      end end end end end end end
  end

with parseElems (fuel : nat) (s : string) : option (list json * string) :=
  match fuel with
  | O => None
  | S fuel' =>
      match parseValue fuel' s with
      | Some (v, String c rest) =>
          if Ascii.eqb c "," then
            match parseElems fuel' rest with
            | Some (vs, rest') => Some (v :: vs, rest')
            | None => None
            end
          else if Ascii.eqb c "]" then Some ([v], rest)
          else None
      | _ => None
      end
  end

with parseMembers (fuel : nat) (s : string)
     : option (list (string * json) * string) :=
  match fuel with
  | O => None
  | S fuel' =>
      match s with
      | EmptyString => None
      | String q body =>
          if Ascii.eqb q dquote then
            match parseString body with
            | Some (key, String colon rest) =>
                if Ascii.eqb colon ":" then
                  match parseValue fuel' rest with
                  | Some (v, String c rest') =>
                      if Ascii.eqb c "," then
                        match parseMembers fuel' rest' with
                        | Some (ms, rest'') => Some ((key, v) :: ms, rest'')
                        | None => None
                        end
                      else if Ascii.eqb c "}" then Some ([(key, v)], rest')
                      else None
                  | _ => None
                  end
                else None
            | _ => None
            end
          else None
      end
  end.

Definition parse (s : string) : option json :=
  match parseValue (S (String.length s)) s with
  | Some (j, EmptyString) => Some j
  | _ => None
  end.


(** *** Vocabulary of the codec proofs *)

(** The rest of the input after a number does not go on with a
    digit. *)
Definition okTail (rest : string) : Prop :=
  match rest with
  | EmptyString => True
  | String c _ => isDigit c = false
  end.

(** Fuel that is enough to read a value back. *)
Fixpoint size (j : json) : nat :=
  match j with
  | JArr elts => S (list_sum (map (fun e => S (size e)) elts))
  | JObj props => S (list_sum (map (fun kv => S (size (snd kv))) props))
  | _ => 1
  end.

(** The first unit of a printed value. *)
Definition valueStart (c : ascii) : bool :=
  isDigit c || Ascii.eqb c "-" || Ascii.eqb c "n" || Ascii.eqb c "t"
  || Ascii.eqb c "f" || Ascii.eqb c dquote || Ascii.eqb c "[" || Ascii.eqb c "{".

Definition readsBack (j : json) : Prop :=
  forall fuel rest,
    size j <= fuel -> okTail rest ->
    parseValue fuel (print j ++ rest) = Some (j, rest).


Definition printMember (kv : string * json) : string :=
  (quote (fst kv) ++ String ":" (print (snd kv)))%string.

Definition platform : Platform :=
  {| localeCompare := compareText;
     NumberToString := printNumber;
     StringToNumber := parseNumberText;
     JSON_parse := parse;
     JSON_stringify := print |}.

End Ref.

(* ================================================================= *)
(** ** A sample session on the reference platform *)

Module Demo.

Definition world : World :=
  mkWorld (Some (fun n => ("uuid-" ++ Str.ofNat n)%string)) 0
          (fun n => (1700000000000 + Z.of_nat n)%Z) 0
          (fun _ => "0.5") 0.

(** A storage that holds [raw] under every key and takes every
    write. *)
Definition holding (raw : option string) : Storage :=
  mkStorage (fun _ => raw) (fun _ _ => true) 0.

(** A storage that holds [raw] and refuses every write. *)
Definition full (raw : option string) : Storage :=
  mkStorage (fun _ => raw) (fun _ _ => false) 0.

Definition page : Dom := mkDom Cleared EmptyString true (Some (true, EmptyString)).

Definition start : State :=
  init (P := Ref.platform) (boot page (holding None) world).

(** Three tasks, the second one done. *)
Definition three : State :=
  run (P := Ref.platform) start
      [ Add "Buy milk" "home, errands, ,home";
        Add "  Call Bob " "Work";
        Add "Plan trip" "";
        Toggle "uuid-1" ].

(** Three tasks of which one is left to do. *)
Definition oneLeft : State :=
  run (P := Ref.platform) three [ Toggle "uuid-2" ].

(** The same with the filter set from the tag pill "Home", and with a
    filter that matches nothing. *)
Definition filtered : State :=
  run (P := Ref.platform) three [ SetTagFilter (Some "Home") ].

Definition filteredOut : State :=
  run (P := Ref.platform) three [ SetTagFilter (Some "garden") ].

Definition byTag : State :=
  run (P := Ref.platform) three [ SetSort "tag" ].

(** Stored records that need every coercion. *)
Definition storedRecords : list json :=
  [ JObj [("title", JStr "   ")];
    JObj [("id", JNum 7); ("title", JStr " x "); ("completed", JNum 1);
          ("createdAt", JStr "12");
          ("tags", JArr [JStr " a "; JNull; JStr ""; JBool true])];
    JObj [("id", JNull); ("tags", JStr "a,b")] ].

Definition withRecords : State :=
  boot page (holding (Some (Ref.print (JArr storedRecords)))) world.

Definition corrupted : Storage := holding (Some "not json").

(** A task with nothing but a creation time and tags. *)
Definition stamped (at_ : Z) (theTags : list string) : Task :=
  mkTask "" "t" false (Fin at_) theTags.

(** A collection with one task whose [createdAt] is not a number, as
    loading a stored [createdAt] of "soon" leaves it, in a storage that
    takes the write. *)
Definition undated : State :=
  mkState [[mkTask "a" "x" false NaN []]] 0 SortCreatedAt None EmptyString
          page (holding None) world.

(** The sample session when the browser refuses every write. *)
Definition refused : State :=
  run (P := Ref.platform)
      (init (P := Ref.platform) (boot page (full (Some "[]")) world))
      [ Add "Buy milk" "home" ].

(** A stored sequence with a [null] among the records. *)
Definition withNull : State :=
  boot page
       (holding (Some (Ref.print (JArr [JObj [("id", JStr "a"); ("title", JStr "x")];
                                        JNull]))))
       world.

Definition notASequence : Storage :=
  holding (Some (Ref.print (JObj [("tasks", JArr [])]))).

End Demo.

(* ================================================================= *)
(** ** The form and its submit handler *)

(** The form elements [handleFormSubmit] reads and writes: the value of
    the title input, the value of the tags input ([None] when the page
    has no tags input), whether the title input has the focus, and
    whether the default action of the submit event was prevented. *)
Record Form : Type := mkForm {
  inputValue : string;
  tagsInputValue : option string;
  inputFocused : bool;
  defaultPrevented : bool
}.

Section FormHandlers.
Context {P : Platform}.

Definition handleFormSubmit (st : State) (f : Form) : State * Form :=
  let value := inputValue f in
  let tagsValue :=
    match tagsInputValue f with
    | Some v => v
    | None => EmptyString
    end in
  let st' := addTask st value tagsValue in
  (st',
   mkForm EmptyString
          match tagsInputValue f with
          | Some _ => Some EmptyString
          | None => None
          end
          true true).

(** The [click] listener of the clear-filter button. *)
Definition onClearTagFilter (st : State) : State := setActiveTagFilter st None.

End FormHandlers.

(* ================================================================= *)
(** ** More vocabulary *)

(** An intent that only changes what is shown. *)
Definition viewOnly (a : Action) : bool :=
  match a with
  | ClickTag _ | SetTagFilter _ | SetSort _ => true
  | _ => false
  end.

(** An intent that reaches [saveTasks]: every mutation, except an add
    whose title is blank. *)
Definition mutates (a : Action) : bool :=
  match a with
  | Add theTitle _ => Str.truthy (Str.trim theTitle)
  | Remove _ | Toggle _ | ClearCompleted => true
  | _ => false
  end.

(** A task as [loadTasks] leaves it: the title trimmed, the tags
    trimmed and not empty. *)
Definition tidy (t : Task) : Prop :=
  Str.trim (title t) = title t /\ Forall trimmedNonEmpty (tags t).

(** What a save followed by a load does to a task whose [createdAt] is
    finite. *)
Definition normalise (t : Task) : Task :=
  mkTask (id t) (Str.trim (title t)) (completed t) (createdAt t)
         (filter Str.truthy (map Str.trim (tags t))).

(** No unit of the text is a comma. *)
Fixpoint commaFree (s : string) : bool :=
  match s with
  | EmptyString => true
  | String c s' => negb (Ascii.eqb c ",") && commaFree s'
  end.

(** Every identifier in the collection was handed out by the identifier
    source [gen] in one of the calls made so far. *)
Definition idsFrom (gen : nat -> string) (st : State) : Prop :=
  randomUUID (world st) = Some gen /\
  Forall (fun t => exists k, k < uuidCalls (world st) /\ id t = gen k)
         (theTasks st).

(** The tasks of two collections agree pairwise except for [completed],
    which is flipped where the id is [theId]. *)
Definition toggledAt (theId : string) (t t' : Task) : Prop :=
  id t' = id t /\ title t' = title t /\ createdAt t' = createdAt t /\
  tags t' = tags t /\
  completed t' = if String.eqb (id t) theId then negb (completed t)
                 else completed t.

(** The identifier source hands out an identifier once. *)
Definition injective (gen : nat -> string) : Prop :=
  forall j k, gen j = gen k -> j = k.

(* ================================================================= *)
(** ** More sample states *)

Module Samples.

(** The sample session with a storage that refuses every write. *)
Definition threeRefused : State :=
  setStorage Demo.three (Demo.full None).

(** A collection as loading never leaves it: a title with blanks
    around it, tags with blanks around them, an empty tag. *)
Definition untidy : State :=
  mkState [[mkTask "a" "  x " true (Fin 5) [" p "; ""; "q"];
            mkTask "b" "y" false (Fin 6) []]]
          0 SortCreatedAt None EmptyString
          Demo.page (Demo.holding None) Demo.world.

(** Two tasks without tags. *)
Definition plain : State :=
  run (P := Ref.platform) Demo.start [ Add "b" ""; Add "a" "" ].

(** The identifier source of the sample world. *)
Definition uuids (n : nat) : string := ("uuid-" ++ Str.ofNat n)%string.

(** A form with a title typed in, on a page without tags input. *)
Definition typed : Form := mkForm " Water plants " None false false.

End Samples.
(* ================================================================= *)
(** * Properties *)

(** ** Strings *)

Lemma truthy_false_iff (s : string) : Str.truthy s = false <-> s = EmptyString.
Proof. destruct s; simpl; split; congruence. Qed.

Lemma truthy_true_iff (s : string) : Str.truthy s = true <-> s <> EmptyString.
Proof. destruct s; simpl; split; congruence. Qed.

Lemma trimStart_clean (s : string) :
  match Str.trimStart s with
  | EmptyString => True
  | String c _ => Str.isWhiteSpace c = false
  end.
Proof.
  induction s as [|c s IH]; simpl; [exact I|].
  destruct (Str.isWhiteSpace c) eqn:E; [exact IH | exact E].
Qed.

Lemma trimStart_fixed (s : string) :
  match s with
  | EmptyString => True
  | String c _ => Str.isWhiteSpace c = false
  end ->
  Str.trimStart s = s.
Proof. destruct s as [|c s]; simpl; [reflexivity|]. now intros ->. Qed.

Lemma trimEnd_head (c : ascii) (s : string) :
  Str.isWhiteSpace c = false ->
  exists r, Str.trimEnd (String c s) = String c r.
Proof.
  intros E. simpl. destruct (Str.trimEnd s) as [|d r].
  - rewrite E. now exists EmptyString.
  - now exists (String d r).
Qed.

Lemma trimEnd_idem (s : string) : Str.trimEnd (Str.trimEnd s) = Str.trimEnd s.
Proof.
  induction s as [|c s IH]; simpl; [reflexivity|].
  destruct (Str.trimEnd s) as [|d r] eqn:E.
  - destruct (Str.isWhiteSpace c) eqn:W; simpl; [reflexivity|].
    now rewrite W.
  - change (Str.trimEnd (String c (String d r))) with
      (match Str.trimEnd (String d r) with
       | EmptyString => if Str.isWhiteSpace c then EmptyString else String c EmptyString
       | r' => String c r'
       end).
    now rewrite IH.
Qed.

(** Trimming twice is trimming once: what [trim] returns is trimmed. *)
Lemma trim_idem (s : string) : Str.trim (Str.trim s) = Str.trim s.
Proof.
  unfold Str.trim.
  pose proof (trimStart_clean s) as C.
  destruct (Str.trimStart s) as [|c u] eqn:E; [reflexivity|].
  destruct (trimEnd_head c u C) as [r Hr].
  rewrite Hr, trimStart_fixed by exact C.
  rewrite <- Hr. apply trimEnd_idem.
Qed.

Lemma toLowerCase_empty_iff (s : string) :
  Str.toLowerCase s = EmptyString <-> s = EmptyString.
Proof. destruct s; simpl; split; congruence. Qed.

(** ** The array store *)

Lemma read_alloc_new (h : Store) (v : list Task) :
  read (h ++ [v]) (List.length h) = v.
Proof.
  unfold read. rewrite app_nth2 by lia. now rewrite Nat.sub_diag.
Qed.

Lemma read_alloc_old (h : Store) (v : list Task) (l : loc) :
  l < List.length h -> read (h ++ [v]) l = read h l.
Proof. intros H. unfold read. now apply app_nth1. Qed.

Lemma length_write (h : Store) (l : loc) (v : list Task) :
  List.length (write h l v) = List.length h.
Proof.
  unfold write.
  revert l; induction h as [|c h IH]; intros [|l]; simpl; auto.
Qed.

Lemma read_write_same (h : Store) (l : loc) (v : list Task) :
  l < List.length h -> read (write h l v) l = v.
Proof.
  unfold read, write.
  revert l; induction h as [|c h IH]; intros [|l]; simpl; intros H;
    try lia; auto.
  apply IH; lia.
Qed.

Lemma read_write_other (h : Store) (l l' : loc) (v : list Task) :
  l <> l' -> read (write h l v) l' = read h l'.
Proof.
  unfold read, write.
  revert l l'; induction h as [|c h IH]; intros [|l] [|l']; simpl; intros H;
    try congruence; auto.
Qed.

(** ** Rendering *)

Section RenderFacts.
Context {P : Platform}.

Lemma updateTaskCount_frame (st : State) :
  heap (updateTaskCount st) = heap st /\
  tasks (updateTaskCount st) = tasks st /\
  sortMode (updateTaskCount st) = sortMode st /\
  activeTagFilter (updateTaskCount st) = activeTagFilter st /\
  activeTagLabel (updateTaskCount st) = activeTagLabel st /\
  storage (updateTaskCount st) = storage st /\
  world (updateTaskCount st) = world st /\
  listContent (dom (updateTaskCount st)) = listContent (dom st) /\
  tagFilterUi (dom (updateTaskCount st)) = tagFilterUi (dom st).
Proof. repeat split. Qed.

Lemma renderTasks_spec (st : State) :
  valid st ->
  let st' := renderTasks st in
  valid st' /\
  tasks st' = tasks st /\
  theTasks st' = theTasks st /\
  listContent (dom st') = renderedList st /\
  countText (dom st') =
    countSummary (incomplete (theTasks st)) (List.length (theTasks st)) /\
  sortMode st' = sortMode st /\
  activeTagFilter st' = activeTagFilter st /\
  activeTagLabel st' = activeTagLabel st /\
  storage st' = storage st /\
  world st' = world st.
Proof.
  intros V. unfold valid in V.
  unfold renderTasks, renderedList, candidates.
  destruct st as [h l m f lab d s w]; simpl in *.
  destruct f as [f|]; unfold theTasks; simpl.
  - (* a filter is active: the visible tasks are a new array *)
    rewrite read_alloc_new.
    destruct (filter (matchesFilter f) (read h l)) as [|v vis] eqn:E; simpl.
    + unfold valid, theTasks, incomplete; simpl.
      rewrite length_app, read_alloc_old by exact V; simpl.
      repeat split; try reflexivity; lia.
    + unfold valid, theTasks, incomplete; simpl.
      assert (L : l < List.length (h ++ [v :: vis]))
        by (rewrite length_app; simpl; lia).
      rewrite read_alloc_new.
      rewrite read_write_other by lia.
      rewrite read_write_same by (rewrite (length_app (h ++ _)); simpl; lia).
      rewrite length_write, (length_app (h ++ _)).
      rewrite !read_alloc_old by assumption.
      repeat split; try reflexivity; simpl; lia.
  - (* no filter: the visible tasks are the task array itself *)
    destruct (read h l) as [|v vis] eqn:E; simpl.
    + unfold valid, theTasks, incomplete; simpl. rewrite E.
      repeat split; try reflexivity; exact V.
    + unfold valid, theTasks, incomplete; simpl.
      rewrite read_alloc_new.
      rewrite read_write_other by lia.
      rewrite read_write_same by (rewrite length_app; simpl; lia).
      rewrite length_write, length_app.
      rewrite !read_alloc_old by assumption.
      rewrite E.
      repeat split; try reflexivity; simpl; lia.
Qed.

End RenderFacts.

(** ** Sorting *)

Section SortFacts.
Context {A : Type} (cmp : A -> A -> number).

Lemma insert_perm (x : A) (l : list A) : Permutation (insert cmp x l) (x :: l).
Proof.
  induction l as [|y l IH]; simpl; [reflexivity|].
  destruct (Num.positive (cmp x y)); [|reflexivity].
  rewrite IH. apply perm_swap.
Qed.

Lemma sort_perm (l : list A) : Permutation (sort cmp l) l.
Proof.
  induction l as [|x l IH]; simpl; [reflexivity|].
  rewrite insert_perm. now constructor.
Qed.

(** The comparator is consistent on the elements that satisfy [Q]. *)
Variable Q : A -> Prop.
Hypothesis before_total : forall a b, Q a -> Q b -> before cmp a b \/ before cmp b a.
Hypothesis before_trans :
  forall a b c, Q a -> Q b -> Q c -> before cmp a b -> before cmp b c -> before cmp a c.

Lemma insert_sorted (x : A) (l : list A) :
  Q x -> Forall Q l ->
  StronglySorted (before cmp) l -> StronglySorted (before cmp) (insert cmp x l).
Proof.
  intros Qx Ql S. induction S as [|y l S IH Hy]; simpl.
  - repeat constructor.
  - inversion Ql as [|? ? Qy Ql']; subst.
    destruct (Num.positive (cmp x y)) eqn:E.
    + constructor; [now apply IH|].
      rewrite (insert_perm x l). constructor; [|exact Hy].
      destruct (before_total x y Qx Qy) as [B|B]; [|exact B].
      unfold before in B; congruence.
    + constructor; [now constructor|].
      constructor; [exact E|].
      rewrite Forall_forall in *. intros z Hz.
      apply (before_trans x y z); auto.
Qed.

Lemma sort_sorted (l : list A) :
  Forall Q l -> StronglySorted (before cmp) (sort cmp l).
Proof.
  induction 1 as [|x l Qx Ql IH]; simpl; [constructor|].
  apply insert_sorted; auto.
  now rewrite (sort_perm l).
Qed.

End SortFacts.

Lemma StronglySorted_weaken {A} (R S : A -> A -> Prop) (Q : A -> Prop) (l : list A) :
  (forall a b, Q a -> Q b -> R a b -> S a b) ->
  Forall Q l -> StronglySorted R l -> StronglySorted S l.
Proof.
  intros W Ql H. induction H as [|x l H IH Hx]; [constructor|].
  inversion Ql as [|? ? Qx Ql']; subst.
  constructor; [now apply IH|].
  rewrite Forall_forall in *. intros y Hy. apply W; auto.
Qed.

(** ** Number order *)

Lemma sub_not_positive_iff (a b : number) :
  a <> NaN -> b <> NaN ->
  (Num.positive (Num.sub a b) = false <-> Num.le a b).
Proof.
  unfold Num.le.
  destruct a as [| |x|], b as [| |y|]; simpl; intros Ha Hb;
    try congruence; try (split; congruence).
  rewrite Z.ltb_ge, Z.leb_le. lia.
Qed.

Lemma le_total (a b : number) :
  a <> NaN -> b <> NaN -> Num.le a b \/ Num.le b a.
Proof.
  unfold Num.le.
  destruct a as [| |x|], b as [| |y|]; simpl; intros Ha Hb;
    try congruence; auto.
  rewrite !Z.leb_le. lia.
Qed.

Lemma le_trans (a b c : number) : Num.le a b -> Num.le b c -> Num.le a c.
Proof.
  unfold Num.le.
  destruct a as [| |x|], b as [| |y|], c as [| |z|]; simpl;
    try congruence.
  rewrite !Z.leb_le. lia.
Qed.

(** ** The comparator of the render *)

Section CompareFacts.
Context {P : Platform} {L : PlatformLaws P}.

Lemma localeCompare_flip_neg (a b : string) :
  (localeCompare a b < 0 <-> 0 < localeCompare b a)%Z.
Proof. pose proof (localeCompare_antisym a b). lia. Qed.

Lemma localeCompare_flip_zero (a b : string) :
  (localeCompare a b = 0 <-> localeCompare b a = 0)%Z.
Proof. pose proof (localeCompare_antisym a b). lia. Qed.

Lemma sortTag_firstTag (a : Task) : sortTag a = Str.toLowerCase (firstTag a).
Proof.
  unfold sortTag, firstTag. destruct (tags a) as [|x r]; simpl; [reflexivity|].
  now destruct x.
Qed.

Lemma sortTag_truthy (a : Task) :
  Str.truthy (sortTag a) = false <-> untagged a.
Proof.
  rewrite sortTag_firstTag, truthy_false_iff, toLowerCase_empty_iff.
  reflexivity.
Qed.

(** For tags without empty strings, having no first tag is having no
    tags. *)
Lemma untagged_iff_no_tags (a : Task) :
  Forall (fun tag => tag <> EmptyString) (tags a) ->
  (untagged a <-> tags a = []).
Proof.
  unfold untagged, firstTag. destruct (tags a) as [|x r]; simpl.
  - tauto.
  - intros H. inversion H; subst. split; [tauto|discriminate].
Qed.

Lemma untagged_dec (a : Task) : {untagged a} + {~ untagged a}.
Proof. unfold untagged. apply string_dec. Qed.

(** The comparator lets [a] stay before [b] exactly when the order of
    the specification puts [a] before [b]. *)
Lemma before_iff_displayOrder (mode : SortMode) (a b : Task) :
  timed a -> timed b ->
  (before (compareTasks mode) a b <-> displayOrder mode a b).
Proof.
  intros Ta Tb. unfold before. destruct mode; simpl.
  - now apply sub_not_positive_iff.
  - unfold byFirstTag, oldestFirst.
    pose proof (sortTag_truthy a) as Ha. pose proof (sortTag_truthy b) as Hb.
    rewrite <- !sortTag_firstTag.
    destruct (Str.truthy (sortTag a)) eqn:Ea, (Str.truthy (sortTag b)) eqn:Eb;
      simpl.
    + assert (Na : ~ untagged a) by (intros U; apply Ha in U; congruence).
      assert (Nb : ~ untagged b) by (intros U; apply Hb in U; congruence).
      destruct (localeCompare (sortTag a) (sortTag b) =? 0)%Z eqn:Ez; simpl.
      * apply Z.eqb_eq in Ez. rewrite (sub_not_positive_iff _ _ Ta Tb).
        split; [intros H; right; right; repeat split; auto|].
        intros [[U _]|[[_ U]|(_ & _ & [H|[_ H]])]]; try tauto; lia.
      * apply Z.eqb_neq in Ez. rewrite Z.ltb_ge.
        split; [intros H; right; right; repeat split; auto; left; lia|].
        intros [[U _]|[[_ U]|(_ & _ & [H|[H _]])]]; try tauto; lia.
    + assert (Na : ~ untagged a) by (intros U; apply Ha in U; congruence).
      assert (Ub : untagged b) by now apply Hb.
      split; [intros _; right; left; now split | reflexivity].
    + assert (Ua : untagged a) by now apply Ha.
      split; [discriminate|].
      intros [[_ [U _]]|[[U _]|(U & _)]]; tauto.
    + assert (Ua : untagged a) by now apply Ha.
      assert (Ub : untagged b) by now apply Hb.
      rewrite (sub_not_positive_iff _ _ Ta Tb).
      split; [intros H; left; auto|].
      intros [(_ & _ & H)|[[U _]|(U & _)]]; tauto.
Qed.

Lemma displayOrder_total (mode : SortMode) (a b : Task) :
  timed a -> timed b -> displayOrder mode a b \/ displayOrder mode b a.
Proof.
  intros Ta Tb. destruct mode; simpl.
  - now apply le_total.
  - unfold byFirstTag, oldestFirst.
    destruct (le_total _ _ Ta Tb) as [T|T];
    destruct (untagged_dec a) as [Ua|Na], (untagged_dec b) as [Ub|Nb];
      try tauto;
    pose proof (localeCompare_antisym
                  (Str.toLowerCase (firstTag a)) (Str.toLowerCase (firstTag b))) as S;
    simpl;
    destruct (Z.lt_trichotomy
                (localeCompare (Str.toLowerCase (firstTag a))
                               (Str.toLowerCase (firstTag b))) 0)
      as [H|[H|H]].
    all: try (left; right; right; repeat split; auto; left; lia).
    all: try (left; right; right; repeat split; auto; right; split; [lia|assumption]).
    all: try (right; right; right; repeat split; auto; left; lia).
    all: try (right; right; right; repeat split; auto; right; split; [lia|assumption]).
Qed.

Lemma displayOrder_trans (mode : SortMode) (a b c : Task) :
  displayOrder mode a b -> displayOrder mode b c -> displayOrder mode a c.
Proof.
  destruct mode; simpl.
  - apply le_trans.
  - unfold byFirstTag, oldestFirst.
    set (ka := Str.toLowerCase (firstTag a)).
    set (kb := Str.toLowerCase (firstTag b)).
    set (kc := Str.toLowerCase (firstTag c)).
    simpl.
    intros [(Ua & Ub & Hab)|[(Na & Ub)|(Na & Nb & Hab)]]
           [(Ub' & Uc & Hbc)|[(Nb' & Uc)|(Nb' & Nc & Hbc)]];
      try tauto.
    + left. repeat split; auto. eapply le_trans; eauto.
    + right. right. repeat split; auto.
      pose proof (localeCompare_trans ka kb kc) as T1.
      pose proof (localeCompare_trans kb kc ka) as T2.
      pose proof (localeCompare_trans kc ka kb) as T3.
      pose proof (localeCompare_antisym ka kb) as S1.
      pose proof (localeCompare_antisym kb kc) as S2.
      pose proof (localeCompare_antisym ka kc) as S3.
      destruct (Z.lt_trichotomy (localeCompare ka kc) 0) as [H|[H|H]].
      * now left.
      * right. split; [exact H|].
        destruct Hab as [Hab|[? Hab]], Hbc as [Hbc|[? Hbc]]; try lia.
        eapply le_trans; eauto.
      * destruct Hab as [Hab|[Hab _]], Hbc as [Hbc|[Hbc _]]; lia.
Qed.

End CompareFacts.

(** ** Assignment and persistence *)

Lemma assignTasks_valid (st : State) (v : list Task) : valid (assignTasks st v).
Proof. unfold valid, assignTasks, alloc; simpl. rewrite length_app; simpl; lia. Qed.

Lemma assignTasks_theTasks (st : State) (v : list Task) :
  theTasks (assignTasks st v) = v.
Proof. unfold theTasks, assignTasks, alloc; simpl. apply read_alloc_new. Qed.

Section SaveFacts.
Context {P : Platform}.

Lemma saveTasks_heap (st : State) :
  heap (saveTasks st) = heap st /\ tasks (saveTasks st) = tasks st.
Proof. unfold saveTasks. destruct (setItem _ _ _); simpl; auto. Qed.

Lemma saveTasks_valid (st : State) : valid st -> valid (saveTasks st).
Proof.
  unfold valid. destruct (saveTasks_heap st) as [-> ->]. auto.
Qed.

Lemma saveTasks_theTasks (st : State) : theTasks (saveTasks st) = theTasks st.
Proof.
  unfold theTasks. destruct (saveTasks_heap st) as [-> ->]. reflexivity.
Qed.

(** A mutation that rebinds [tasks], saves and renders leaves the new
    array as the collection. *)
Lemma rebind_save_render (st : State) (v : list Task) :
  theTasks (renderTasks (saveTasks (assignTasks st v))) = v.
Proof.
  pose proof (renderTasks_spec (saveTasks (assignTasks st v))
                (saveTasks_valid _ (assignTasks_valid st v))) as (_ & _ & H & _).
  rewrite H, saveTasks_theTasks. apply assignTasks_theTasks.
Qed.

Lemma rebind_save_render_valid (st : State) (v : list Task) :
  valid (renderTasks (saveTasks (assignTasks st v))).
Proof.
  apply (renderTasks_spec (saveTasks (assignTasks st v))
           (saveTasks_valid _ (assignTasks_valid st v))).
Qed.

End SaveFacts.

(** ** Loading *)

Section LoadFacts.
Context {P : Platform}.

Lemma own_in (key : string) (props : list (string * json)) (v : json) :
  Coerce.own key props = Some v -> exists k, In (k, v) props.
Proof.
  induction props as [|[k x] props IH]; simpl; [discriminate|].
  destruct (Coerce.own key props) as [later|].
  - intros [= <-]. destruct (IH eq_refl) as [k' I]. exists k'. now right.
  - destruct (String.eqb key k); [|discriminate].
    intros [= <-]. exists k. now left.
Qed.

Lemma own_textable (key : string) (props : list (string * json)) (v : json) :
  forallb (fun kv => textable (snd kv)) props = true ->
  Coerce.own key props = Some v -> textable v = true.
Proof.
  intros F O. destruct (own_in _ _ _ O) as [k I].
  rewrite forallb_forall in F. exact (F _ I).
Qed.

Lemma notNullish_some (o : option json) (v : json) :
  Coerce.notNullish o = Some v -> o = Some v.
Proof. destruct o as [[]|]; simpl; congruence. Qed.

Lemma textable_text (v : json) :
  textable v = true -> Coerce.ToString v = Some (text v).
Proof. unfold textable, text. now destruct (Coerce.ToString v). Qed.

Lemma textable_number (v : json) :
  textable v = true -> Coerce.ToNumber v = Some (numberOf v).
Proof.
  unfold textable, numberOf.
  destruct v as [|[]| | | |]; simpl; try reflexivity;
    match goal with |- context [option_map _ ?o] => destruct o end;
    simpl; congruence.
Qed.

Lemma textable_elements (elts : list json) :
  textable (JArr elts) = true -> forallb textable elts = true.
Proof.
  unfold textable at 1. simpl.
  induction elts as [|e elts IH]; simpl; [reflexivity|].
  intros H.
  assert (E : textable e = true).
  { unfold textable. destruct e; simpl in *; try reflexivity;
      match goal with |- context [match ?o with _ => _ end] =>
        destruct o; [reflexivity|discriminate] end. }
  rewrite E. apply IH.
  destruct (match e with JNull => Some EmptyString | _ => Coerce.ToString e end);
    [|discriminate].
  now destruct (Coerce.pieces Coerce.ToString elts).
Qed.

(** The [map] over the stored tags, when every element can be
    printed. *)
Lemma mapM_tags (elts : list json) (w : World) :
  forallb textable elts = true ->
  mapM (fun tag => s <- orThrow (Coerce.ToString tag) ;; ret (Str.trim s)) elts w
  = (Some (map (fun e => Str.trim (text e)) elts), w).
Proof.
  induction elts as [|e elts IH]; simpl; [reflexivity|].
  intros H. apply andb_prop in H as [He Hs].
  unfold bind at 1 2. rewrite (textable_text e He). simpl.
  unfold bind at 1. rewrite (IH Hs). reflexivity.
Qed.

(** On a stored record the callback does not throw and computes what
    the specification says, field by field. *)
Lemma coerceTask_record (props : list (string * json)) (w : World) :
  storedRecord (JObj props) = true ->
  coerceTask (JObj props) w
  = (Some (fst (specCoerce props w)), snd (specCoerce props w)).
Proof.
  simpl. intros F.
  pose proof (fun key v (E : Coerce.notNullish (Coerce.own key props) = Some v) =>
                textable_text v (own_textable key props v F (notNullish_some _ _ E)))
    as Htext.
  pose proof (fun key v (E : Coerce.notNullish (Coerce.own key props) = Some v) =>
                textable_number v (own_textable key props v F (notNullish_some _ _ E)))
    as Hnum.
  pose proof (fun elts (E : Coerce.own "tags" props = Some (JArr elts)) w' =>
                mapM_tags elts w'
                  (textable_elements elts (own_textable "tags" props _ F E)))
    as Htags.
  unfold coerceTask, specCoerce, bind, orThrow, liftW, ret. simpl.
  destruct (Coerce.notNullish (Coerce.own "id" props)) as [vi|] eqn:Ei;
    [rewrite (Htext _ _ Ei) | destruct (loadId w) as [i w1]];
  (destruct (Coerce.notNullish (Coerce.own "title" props)) as [vt|] eqn:Et;
    [rewrite (Htext _ _ Et) |]);
  (destruct (Coerce.notNullish (Coerce.own "createdAt" props)) as [vc|] eqn:Ec;
    [rewrite (Hnum _ _ Ec) | simpl]);
  (destruct (Coerce.own "tags" props) as [[| | | |elts|]|] eqn:Eg;
    try reflexivity);
  unfold bind, orThrow, ret in Htags; rewrite (Htags elts eq_refl);
  reflexivity.
Qed.
Lemma mapM_records (elts : list json) (w : World) :
  forallb storedRecord elts = true ->
  mapM coerceTask elts w = (Some (fst (specLoad elts w)), snd (specLoad elts w)).
Proof.
  revert w. induction elts as [|e elts IH]; intros w; simpl; [reflexivity|].
  intros H. apply andb_prop in H as [He Hs].
  destruct e as [| | | | |props]; try discriminate.
  unfold bind at 1. rewrite (coerceTask_record props w He).
  destruct (specCoerce props w) as [t w1]; simpl.
  unfold bind at 1. rewrite (IH w1 Hs).
  destruct (specLoad elts w1) as [ts w2]; reflexivity.
Qed.

Lemma specLoad_length (elts : list json) (w : World) :
  forallb storedRecord elts = true ->
  List.length (fst (specLoad elts w)) = List.length elts.
Proof.
  revert w. induction elts as [|e elts IH]; intros w; simpl; [reflexivity|].
  intros H. apply andb_prop in H as [He Hs].
  destruct e as [| | | | |props]; try discriminate.
  destruct (specCoerce props w) as [t w1].
  specialize (IH w1 Hs).
  destruct (specLoad elts w1) as [ts w2]; simpl in *. now rewrite IH.
Qed.

(** What [loadTasks] does with a stored text that parses. *)
Lemma loadTasks_parsed (st : State) (raw : string) (j : json) :
  getItem (storage st) STORAGE_KEY = Some raw ->
  raw <> EmptyString ->
  JSON_parse raw = Some j ->
  loadTasks st =
  match j with
  | JArr elts =>
      match mapM coerceTask elts (world st) with
      | (Some ts, w) => assignTasks (setWorld st w) ts
      | (None, w) => assignTasks (setWorld st w) []
      end
  | _ => st
  end.
Proof.
  intros G N Pj. unfold loadTasks, loadTasksTry. rewrite G.
  apply truthy_true_iff in N. rewrite N, Pj; simpl.
  destruct j; try reflexivity.
  now destruct (mapM coerceTask elts (world st)) as [[ts|] w].
Qed.

(** A text that does not parse ends the [try] block by a throw, and
    the [catch] empties the collection, whatever it held. *)
Lemma loadTasks_unparsable (st : State) (raw : string) :
  getItem (storage st) STORAGE_KEY = Some raw ->
  raw <> EmptyString ->
  JSON_parse raw = None ->
  loadTasksTry st = Thrown st /\ theTasks (loadTasks st) = [].
Proof.
  intros G N Pn. unfold loadTasks, loadTasksTry. rewrite G.
  apply truthy_true_iff in N. rewrite N, Pn; simpl.
  split; [reflexivity | apply assignTasks_theTasks].
Qed.

(** A text that parses to something other than an array, an empty text
    and a missing item all leave the state alone. *)
Lemma loadTasks_untouched (st : State) :
  match getItem (storage st) STORAGE_KEY with
  | None => True
  | Some raw =>
      raw = EmptyString \/
      exists j, JSON_parse raw = Some j /\ Coerce.isArray (Some j) = false
  end ->
  loadTasks st = st.
Proof.
  unfold loadTasks, loadTasksTry.
  destruct (getItem (storage st) STORAGE_KEY) as [raw|]; [|reflexivity].
  intros [-> | (j & Pj & A)]; [reflexivity|].
  destruct (Str.truthy raw); simpl; [|reflexivity].
  rewrite Pj. destruct j; try reflexivity; discriminate.
Qed.

(** A [null] element makes the callback throw at its first member
    read. *)
Lemma coerceTask_null (w : World) : coerceTask JNull w = (None, w).
Proof. reflexivity. Qed.

Lemma mapM_tag_strings (l : list string) (w : World) :
  mapM (fun tag => s <- orThrow (Coerce.ToString tag) ;; ret (Str.trim s))
       (map JStr l) w
  = (Some (map Str.trim l), w).
Proof.
  induction l as [|x l IH]; simpl; [reflexivity|].
  unfold bind at 1 2. simpl. unfold bind at 1. now rewrite IH.
Qed.

Lemma trimmed_tags_kept (l : list string) :
  Forall trimmedNonEmpty l -> filter Str.truthy (map Str.trim l) = l.
Proof.
  induction 1 as [|x l [Hx Nx] Hl IH]; simpl; [reflexivity|].
  rewrite Hx. apply truthy_true_iff in Nx. now rewrite Nx, IH.
Qed.

(** Reading back a well-formed task gives the task, and consults
    neither the clock nor the identifier source. *)
Lemma coerceTask_taskToJSON (t : Task) (w : World) :
  wellFormedTask t -> coerceTask (taskToJSON t) w = (Some t, w).
Proof.
  destruct t as [i ti c ca tg]. intros ([Ht _] & Hc & Hg); simpl in *.
  destruct ca as [| |z|]; try discriminate.
  unfold coerceTask, taskToJSON, bind, orThrow, liftW, ret. simpl.
  pose proof (mapM_tag_strings tg w) as M.
  unfold bind, orThrow, ret in M. rewrite M.
  now rewrite Ht, (trimmed_tags_kept tg Hg).
Qed.

Lemma mapM_tasksToJSON (ts : list Task) (w : World) :
  wellFormed ts -> mapM coerceTask (map taskToJSON ts) w = (Some ts, w).
Proof.
  induction 1 as [|t ts Ht Hts IH]; simpl; [reflexivity|].
  unfold bind at 1. rewrite (coerceTask_taskToJSON t w Ht).
  unfold bind at 1. now rewrite IH.
Qed.

End LoadFacts.
(** ** Invariants of a session *)

Section Invariants.
Context {P : Platform}.

Lemma saveTasks_frame (st : State) :
  sortMode (saveTasks st) = sortMode st /\
  activeTagFilter (saveTasks st) = activeTagFilter st /\
  activeTagLabel (saveTasks st) = activeTagLabel st /\
  world (saveTasks st) = world st /\
  dom (saveTasks st) = dom st.
Proof. unfold saveTasks. destruct (setItem _ _ _); simpl; auto. Qed.

Lemma saveTasks_filterConsistent (st : State) :
  filterConsistent st -> filterConsistent (saveTasks st).
Proof.
  unfold filterConsistent.
  destruct (saveTasks_frame st) as (_ & -> & -> & _). auto.
Qed.

Lemma renderTasks_filterConsistent (st : State) :
  valid st -> filterConsistent st -> filterConsistent (renderTasks st).
Proof.
  intros V. unfold filterConsistent.
  destruct (renderTasks_spec st V) as (_ & _ & _ & _ & _ & _ & -> & -> & _).
  auto.
Qed.

(** What [addTask] leaves as the collection when it does add. *)
Lemma addTask_result (st : State) (theTitle tagsInput : string) :
  Str.trim theTitle <> EmptyString ->
  valid st ->
  let st' := addTask st theTitle tagsInput in
  let idw := newId (world st) in
  theTasks st'
  = theTasks st ++
    [mkTask (fst idw) (Str.trim theTitle) false
            (Fin (fst (Date_now (snd idw)))) (parseTags tagsInput)] /\
  tasks st' = tasks st /\
  valid st' /\
  activeTagFilter st' = activeTagFilter st /\
  activeTagLabel st' = activeTagLabel st.
Proof.
  intros N V. simpl. unfold addTask.
  apply truthy_true_iff in N. rewrite N; simpl.
  destruct (newId (world st)) as [i w1]; simpl.
  match goal with |- theTasks (renderTasks (saveTasks ?s)) = _ /\ _ =>
    assert (V2 : valid s)
      by (unfold valid; simpl; rewrite length_write; exact V);
    destruct (renderTasks_spec (saveTasks s) (saveTasks_valid s V2))
      as (Hv & Hl & Ht & _ & _ & _ & Hf & Hb & _);
    destruct (saveTasks_heap s) as [_ Hl'];
    destruct (saveTasks_frame s) as (_ & Hf' & Hb' & _);
    rewrite Ht, Hl, Hf, Hb, saveTasks_theTasks, Hl', Hf', Hb'
  end.
  repeat split; auto.
  unfold theTasks; simpl. now rewrite read_write_same by exact V.
Qed.

(** A mutation that rebinds [tasks] keeps the filter variables. *)
Lemma rebind_filterConsistent (st : State) (v : list Task) :
  filterConsistent st ->
  filterConsistent (renderTasks (saveTasks (assignTasks st v))).
Proof.
  intros C. apply renderTasks_filterConsistent.
  - apply saveTasks_valid, assignTasks_valid.
  - apply saveTasks_filterConsistent. exact C.
Qed.

Lemma setActiveTagFilter_spec (st : State) (tagLabel : option string) :
  valid st ->
  let st' := setActiveTagFilter st tagLabel in
  valid st' /\ filterConsistent st' /\ theTasks st' = theTasks st.
Proof.
  intros V. simpl. unfold setActiveTagFilter.
  match goal with |- valid (renderTasks ?s) /\ _ =>
    assert (V1 : valid s /\ theTasks s = theTasks st /\ filterConsistent s)
  end.
  { destruct tagLabel as [label|]; [destruct (String.eqb_spec label "")|];
      simpl; (destruct (tagFilterUi (dom st)); simpl);
      (split; [exact V|split; [reflexivity|]]);
      unfold filterConsistent; simpl; auto. }
  destruct V1 as (V1 & T1 & C1).
  match goal with |- valid (renderTasks ?s) /\ _ =>
    destruct (renderTasks_spec s V1) as (Hv & _ & Ht & _);
    pose proof (renderTasks_filterConsistent s V1 C1)
  end.
  repeat split; auto. now rewrite Ht.
Qed.

Lemma step_invariant (st : State) (a : Action) :
  valid st -> filterConsistent st ->
  valid (step st a) /\ filterConsistent (step st a).
Proof.
  intros V C. destruct a as [ti tg|i|i| |tag|lbl|v]; simpl.
  - destruct (string_dec (Str.trim ti) "") as [E|N].
    + unfold addTask. rewrite E. simpl. auto.
    + destruct (addTask_result st ti tg N V) as (_ & _ & V' & Hf & Hb).
      split; [exact V'|]. unfold filterConsistent. now rewrite Hf, Hb.
  - split; [apply rebind_save_render_valid | now apply rebind_filterConsistent].
  - split; [apply rebind_save_render_valid | now apply rebind_filterConsistent].
  - split; [apply rebind_save_render_valid | now apply rebind_filterConsistent].
  - unfold onTagClick.
    destruct (activeTagFilter st) as [f|];
      [destruct (Str.truthy f && String.eqb f (Str.toLowerCase tag))|];
      match goal with |- valid (setActiveTagFilter _ ?l) /\ _ =>
        destruct (setActiveTagFilter_spec st l V) as (V' & C' & _)
      end; auto.
  - destruct (setActiveTagFilter_spec st lbl V) as (V' & C' & _). auto.
  - unfold onSortChange.
    split; [apply renderTasks_spec | apply renderTasks_filterConsistent];
      auto.
Qed.

Lemma loadTasks_invariant (st : State) :
  valid st -> filterConsistent st ->
  valid (loadTasks st) /\ filterConsistent (loadTasks st).
Proof.
  intros V C. unfold loadTasks, loadTasksTry.
  destruct (getItem _ _) as [raw|]; [|auto].
  destruct (negb (Str.truthy raw)); [auto|].
  destruct (JSON_parse raw) as [[| | | |elts|]|]; auto;
    try (split; [apply assignTasks_valid | exact C]).
  destruct (mapM coerceTask elts (world st)) as [[ts|] w];
    (split; [apply assignTasks_valid | exact C]).
Qed.

(** Every state of a session has [tasks] pointing into the store and
    the filter variables in step. *)
Lemma session_invariant (d : Dom) (s : Storage) (w : World) (acts : list Action) :
  let st := run (init (boot d s w)) acts in
  valid st /\ filterConsistent st.
Proof.
  simpl. unfold run.
  assert (I0 : valid (init (boot d s w)) /\ filterConsistent (init (boot d s w))).
  { unfold init.
    destruct (loadTasks_invariant (boot d s w)) as [V C];
      [unfold valid; simpl; lia | reflexivity |].
    split; [now apply renderTasks_spec | now apply renderTasks_filterConsistent]. }
  revert I0. generalize (init (boot d s w)) as st.
  induction acts as [|a acts IH]; intros st [V C]; simpl; [auto|].
  apply IH. now apply step_invariant.
Qed.

End Invariants.

(** ** Well-formed collections *)

Section WellFormed.
Context {P : Platform}.

Lemma trimmedNonEmptyb_sound (s : string) :
  trimmedNonEmptyb s = true -> trimmedNonEmpty s.
Proof.
  unfold trimmedNonEmptyb, trimmedNonEmpty. intros H.
  apply andb_prop in H as [E T].
  split; [now apply String.eqb_eq | now apply truthy_true_iff].
Qed.

Lemma wellFormedb_sound (ts : list Task) :
  wellFormedb ts = true -> wellFormed ts.
Proof.
  unfold wellFormedb, wellFormed. rewrite forallb_forall, Forall_forall.
  intros H t I. specialize (H t I).
  apply andb_prop in H as [H G]. apply andb_prop in H as [T F].
  repeat split; auto using trimmedNonEmptyb_sound.
  - now apply trimmedNonEmptyb_sound.
  - now apply trimmedNonEmptyb_sound.
  - rewrite forallb_forall in G. apply Forall_forall.
    intros tag It. apply trimmedNonEmptyb_sound. now apply G.
Qed.

Lemma trim_trimmedNonEmpty (s : string) :
  Str.trim s <> EmptyString -> trimmedNonEmpty (Str.trim s).
Proof. intros N. split; [apply trim_idem | exact N]. Qed.

Lemma parseTags_trimmed (input : string) :
  Forall trimmedNonEmpty (parseTags input).
Proof.
  unfold parseTags. destruct (negb (Str.truthy input)); [constructor|].
  apply Forall_forall. intros tag I.
  apply filter_In in I as [I T].
  apply in_map_iff in I as (piece & <- & _).
  apply trim_trimmedNonEmpty. now apply truthy_true_iff.
Qed.

Lemma flipCompleted_wellFormed (t : Task) :
  wellFormedTask t -> wellFormedTask (flipCompleted t).
Proof. destruct t; unfold wellFormedTask; simpl; auto. Qed.

(** Every intent keeps a well-formed collection well-formed. *)
Lemma step_wellFormed (st : State) (a : Action) :
  valid st -> wellFormed (theTasks st) -> wellFormed (theTasks (step st a)).
Proof.
  intros V W. unfold wellFormed in *. destruct a as [ti tg|i|i| |tag|lbl|v]; simpl.
  - destruct (string_dec (Str.trim ti) "") as [E|N].
    + unfold addTask. rewrite E. simpl. exact W.
    + destruct (addTask_result st ti tg N V) as (-> & _).
      apply Forall_app. split; [exact W|].
      constructor; [|constructor].
      unfold wellFormedTask; simpl.
      repeat split; auto using trim_idem, parseTags_trimmed.
  - unfold removeTask. rewrite rebind_save_render.
    apply Forall_forall. intros t I. apply filter_In in I as [I _].
    rewrite Forall_forall in W. now apply W.
  - unfold toggleTaskCompleted. rewrite rebind_save_render.
    apply Forall_forall. intros t I.
    apply in_map_iff in I as (t0 & <- & I).
    rewrite Forall_forall in W.
    destruct (String.eqb (id t0) i);
      [apply flipCompleted_wellFormed|]; now apply W.
  - unfold clearCompletedTasks. rewrite rebind_save_render.
    apply Forall_forall. intros t I. apply filter_In in I as [I _].
    rewrite Forall_forall in W. now apply W.
  - unfold onTagClick.
    destruct (activeTagFilter st) as [f|];
      [destruct (Str.truthy f && String.eqb f (Str.toLowerCase tag))|];
      match goal with |- Forall _ (theTasks (setActiveTagFilter _ ?l)) =>
        destruct (setActiveTagFilter_spec st l V) as (_ & _ & ->)
      end; exact W.
  - destruct (setActiveTagFilter_spec st lbl V) as (_ & _ & ->). exact W.
  - unfold onSortChange.
    match goal with |- Forall _ (theTasks (renderTasks ?s)) =>
      destruct (renderTasks_spec s V) as (_ & _ & -> & _)
    end.
    exact W.
Qed.

Lemma run_wellFormed (st : State) (acts : list Action) :
  valid st -> filterConsistent st -> wellFormed (theTasks st) ->
  wellFormed (theTasks (run st acts)).
Proof.
  unfold run. revert st.
  induction acts as [|a acts IH]; intros st V C W; simpl; [exact W|].
  destruct (step_invariant st a V C) as [V' C'].
  apply IH; auto. now apply step_wellFormed.
Qed.

Context {L : PlatformLaws P}.

(** What [saveTasks] leaves in the storage when the browser takes the
    write, and when it does not. *)
Lemma saveTasks_stored (st : State) :
  accepts (storage st) STORAGE_KEY
          (JSON_stringify (tasksToJSON (theTasks st))) = true ->
  getItem (storage (saveTasks st)) STORAGE_KEY
  = Some (JSON_stringify (tasksToJSON (theTasks st))).
Proof.
  intros A. unfold saveTasks, setItem. rewrite A. simpl.
  unfold getItem; simpl. reflexivity.
Qed.

Lemma saveTasks_refused (st : State) :
  accepts (storage st) STORAGE_KEY
          (JSON_stringify (tasksToJSON (theTasks st))) = false ->
  items (storage (saveTasks st)) = items (storage st).
Proof. intros A. unfold saveTasks, setItem. now rewrite A. Qed.

(** Loading the text of a well-formed collection gives the collection,
    and consults neither the clock nor the identifier source. *)
Lemma loadTasks_of_saved (st : State) (ts : list Task) :
  wellFormed ts ->
  getItem (storage st) STORAGE_KEY = Some (JSON_stringify (tasksToJSON ts)) ->
  theTasks (loadTasks st) = ts /\ world (loadTasks st) = world st.
Proof.
  intros W G.
  rewrite (loadTasks_parsed _ _ _ G (JSON_stringify_nonempty _)
             (JSON_parse_stringify _)).
  unfold tasksToJSON.
  rewrite (mapM_tasksToJSON _ _ W), assignTasks_theTasks.
  split; reflexivity.
Qed.

(** After any sequence of intents on a well-formed collection, a save
    the browser takes followed by a load gives the collection back. *)
Lemma roundtrip_after_session (st : State) (acts : list Action) :
  valid st -> filterConsistent st -> wellFormed (theTasks st) ->
  let st' := run st acts in
  accepts (storage st') STORAGE_KEY
          (JSON_stringify (tasksToJSON (theTasks st'))) = true ->
  theTasks (loadTasks (saveTasks st')) = theTasks st'.
Proof.
  intros V C W st' A.
  pose proof (run_wellFormed st acts V C W) as W'. fold st' in W'.
  destruct (loadTasks_of_saved (saveTasks st') (theTasks st') W'
              (saveTasks_stored st' A)) as [H _].
  exact H.
Qed.

End WellFormed.

(* ================================================================= *)
(** * The properties of the specification *)

Section Claims.
Context {P : Platform}.

(** C9.  A render leaves the task collection as it was: [tasks] still
    names the same array, and that array holds the same tasks in the
    same order, whatever the filter and the sort mode.  The in-place
    [sort] works on the spread copy, which is a new cell of the
    store. *)
Theorem render_keeps_collection (st : State) :
  valid st ->
  tasks (renderTasks st) = tasks st /\
  theTasks (renderTasks st) = theTasks st /\
  read (heap (renderTasks st)) (tasks st) = read (heap st) (tasks st).
Proof.
  intros V. destruct (renderTasks_spec st V) as (_ & Hl & Ht & _).
  repeat split; auto.
  unfold theTasks in Ht. now rewrite Hl in Ht.
Qed.

(** C3 (amended).  The count text is "No tasks" for an empty
    collection, "All done" when nothing remains, and otherwise
    "R of T task(s) left" with the singular exactly for T = 1; with
    three tasks of which one is incomplete it reads
    "1 of 3 tasks left", and "2 of 3 tasks left" is the text for two
    incomplete tasks out of three. *)
Theorem count_summary (st : State) :
  countText (dom (updateTaskCount st))
  = specSummary (List.length (theTasks st)) (incomplete (theTasks st))
  /\ specSummary 3 1 = "1 of 3 tasks left"
  /\ specSummary 3 2 = "2 of 3 tasks left"
  /\ specSummary 1 1 = "1 of 1 task left".
Proof.
  split; [|repeat split; reflexivity].
  unfold updateTaskCount, incomplete, countSummary, specSummary; simpl.
  destruct (List.length (theTasks st)) as [|[|n]]; simpl; [reflexivity| |];
    destruct (List.length (filter _ _)); reflexivity.
Qed.

(** C7.  A title that trims to nothing makes [addTask] return at once:
    the whole state is the one before, so the collection, the stored
    text and the number of [setItem] calls are unchanged. *)
Theorem addTask_blank_title (st : State) (title tagsInput : string) :
  Str.trim title = EmptyString ->
  let st' := addTask st title tagsInput in
  st' = st /\
  theTasks st' = theTasks st /\
  List.length (theTasks st') = List.length (theTasks st) /\
  items (storage st') = items (storage st) /\
  setItemCalls (storage st') = setItemCalls (storage st).
Proof. intros E. unfold addTask. rewrite E. simpl. repeat split. Qed.

Lemma parseTags_spec (input : string) :
  parseTags input = filter Str.truthy (map Str.trim (Str.split "," input)).
Proof. unfold parseTags. now destruct input. Qed.

(** C8.  With a title that is not blank, [addTask] pushes exactly one
    task onto the end of the array [tasks] names; its title is the
    trimmed title, it is not completed, and its tags are the pieces of
    the tag text between commas, trimmed, without the empty ones, in
    order and with repetitions.  The tag text of the example gives
    home, errands, home. *)
Theorem addTask_appends (st : State) (title tagsInput : string) :
  Str.trim title <> EmptyString ->
  valid st ->
  let st' := addTask st title tagsInput in
  let idw := newId (world st) in
  let t := mkTask (fst idw) (Str.trim title) false
                  (Fin (fst (Date_now (snd idw))))
                  (filter Str.truthy (map Str.trim (Str.split "," tagsInput))) in
  theTasks st' = theTasks st ++ [t] /\
  tasks st' = tasks st /\
  parseTags "home, errands, ,home" = ["home"; "errands"; "home"].
Proof.
  intros N V. simpl.
  destruct (addTask_result st title tagsInput N V) as (Ht & Hl & _).
  rewrite <- parseTags_spec. repeat split; auto.
Qed.

Lemma flipCompleted_twice (t : Task) : flipCompleted (flipCompleted t) = t.
Proof. destruct t as [i ti c ca tg]; unfold flipCompleted; simpl. now rewrite negb_involutive. Qed.

Lemma toggleTaskCompleted_theTasks (st : State) (theId : string) :
  theTasks (toggleTaskCompleted st theId)
  = map (fun t => if String.eqb (id t) theId then flipCompleted t else t)
        (theTasks st).
Proof. unfold toggleTaskCompleted. apply rebind_save_render. Qed.

(** C10.  Toggling the same id twice in a row gives back the
    collection: the same tasks, field for field, in the same order. *)
Theorem toggle_twice (st : State) (theId : string) :
  theTasks (toggleTaskCompleted (toggleTaskCompleted st theId) theId)
  = theTasks st.
Proof.
  rewrite !toggleTaskCompleted_theTasks, map_map.
  rewrite <- (map_id (theTasks st)) at 2.
  apply map_ext. intros t.
  destruct (String.eqb (id t) theId) eqn:E; simpl.
  - rewrite E. apply flipCompleted_twice.
  - now rewrite E.
Qed.

Lemma matchesFilter_iff (f : string) (t : Task) :
  matchesFilter f t = true <->
  exists tag, In tag (tags t) /\ Str.toLowerCase tag = f.
Proof.
  unfold matchesFilter. rewrite existsb_exists.
  split; intros (tag & I & E); exists tag; split; auto;
    now apply String.eqb_eq.
Qed.

Lemma displayed_iff_candidate (st : State) (t : Task) :
  valid st ->
  (displayed (renderTasks st) t <-> In t (candidates st)).
Proof.
  intros V. destruct (renderTasks_spec st V) as (_ & _ & _ & H & _).
  unfold displayed. rewrite H. unfold renderedList.
  destruct (candidates st) as [|c cs] eqn:E.
  - split; [intros (shown & D & _); discriminate | intros []].
  - split.
    + intros (shown & D & I). injection D as <-.
      apply (Permutation_in _ (sort_perm (compareTasks (sortMode st)) (c :: cs))).
      exact I.
    + intros I. eexists; split; [reflexivity|].
      apply (Permutation_in _ (Permutation_sym
               (sort_perm (compareTasks (sortMode st)) (c :: cs)))).
      exact I.
Qed.

(** C4.  Without a filter every task of the collection is displayed.
    With a filter, a task is displayed exactly when it is in the
    collection and one of its tags, lowercased, is the lowercased
    filter label.  When the filter leaves nothing while the collection
    is not empty, the list shows the empty state that names the
    filter, which is not the empty state of an empty collection. *)
Theorem filter_selects_candidates (st : State) :
  valid st ->
  filterConsistent st ->
  (activeTagFilter st = None ->
     (forall t, In t (theTasks st) -> displayed (renderTasks st) t) /\
     (theTasks st = [] ->
        listContent (dom (renderTasks st)) = EmptyState NothingHereYet)) /\
  (activeTagFilter st <> None ->
     (forall t,
        displayed (renderTasks st) t <->
        In t (theTasks st) /\
        exists tag, In tag (tags t) /\
                    Str.toLowerCase tag = Str.toLowerCase (activeTagLabel st)) /\
     (theTasks st <> [] ->
      candidates st = [] ->
        listContent (dom (renderTasks st))
        = EmptyState (NoTasksWithTag (activeTagLabel st)) /\
        EmptyState (NoTasksWithTag (activeTagLabel st))
        <> EmptyState NothingHereYet)).
Proof.
  intros V C. unfold filterConsistent in C.
  destruct (renderTasks_spec st V) as (_ & _ & _ & H & _).
  split.
  - intros N. split.
    + intros t I. apply displayed_iff_candidate; [exact V|].
      unfold candidates. now rewrite N.
    + intros E. rewrite H. unfold renderedList, candidates.
      now rewrite N, E.
  - intros N. destruct (activeTagFilter st) as [f|] eqn:F; [|congruence].
    destruct C as [Ef Nl]. split.
    + intros t. rewrite (displayed_iff_candidate st t V).
      unfold candidates. rewrite F, filter_In, matchesFilter_iff.
      now rewrite Ef.
    + intros _ E. split; [|discriminate].
      rewrite H. unfold renderedList. rewrite E, F.
      assert (Tf : Str.truthy f = true).
      { apply truthy_true_iff. rewrite Ef. now rewrite toLowerCase_empty_iff. }
      assert (Tl : Str.truthy (activeTagLabel st) = true)
        by now apply truthy_true_iff.
      now rewrite Tf, Tl.
Qed.

(** C5.  When the stored text parses to a sequence of records, the
    collection after loading is that sequence coerced record by record
    and field by field as the specification says ([specCoerce]): a
    missing id is generated, the title is printed and trimmed (and kept
    when that leaves nothing), [completed] becomes a boolean,
    [createdAt] a number or the current time, the tags the trimmed
    texts that are not empty, none when [tags] is not a sequence.  No
    record is dropped. *)
Theorem load_coerces_records (st : State) (raw : string) (elts : list json) :
  getItem (storage st) STORAGE_KEY = Some raw ->
  raw <> EmptyString ->
  JSON_parse raw = Some (JArr elts) ->
  forallb storedRecord elts = true ->
  theTasks (loadTasks st) = fst (specLoad elts (world st)) /\
  world (loadTasks st) = snd (specLoad elts (world st)) /\
  List.length (theTasks (loadTasks st)) = List.length elts.
Proof.
  intros G N Pj R.
  rewrite (loadTasks_parsed st raw _ G N Pj), (mapM_records elts _ R).
  rewrite assignTasks_theTasks. repeat split.
  now apply specLoad_length.
Qed.

(** C6.  At start-up, a stored text that does not parse, or that
    parses to something other than a sequence, leaves the collection
    empty.  [loadTasks] is a total function to states: the throw of
    [JSON.parse] ends in the [catch] and goes no further. *)
Theorem load_malformed (d : Dom) (s : Storage) (w : World) (raw : string) :
  getItem s STORAGE_KEY = Some raw ->
  (JSON_parse raw = None \/
   exists j, JSON_parse raw = Some j /\ Coerce.isArray (Some j) = false) ->
  theTasks (loadTasks (boot d s w)) = [] /\
  (raw <> EmptyString -> JSON_parse raw = None ->
   loadTasksTry (boot d s w) = Thrown (boot d s w)).
Proof.
  intros G H. unfold loadTasks, loadTasksTry. simpl. rewrite G.
  destruct (Str.truthy raw) eqn:T; simpl.
  - split.
    + destruct H as [-> | (j & -> & A)]; [apply assignTasks_theTasks|].
      destruct j; try reflexivity; discriminate.
    + intros _ ->. reflexivity.
  - split; [reflexivity|].
    intros N. apply truthy_true_iff in N. congruence.
Qed.

Context {L : PlatformLaws P}.

(** C2.  When there is something to show, the list shows the
    candidates rearranged in the order of the sort mode: oldest first
    by creation time; by tag, tagged before untagged, tagged by the
    collation of the lowercased first tag and oldest first on a tie,
    untagged oldest first. *)
Theorem render_sorts (st : State) :
  valid st ->
  Forall timed (theTasks st) ->
  candidates st <> [] ->
  exists shown,
    listContent (dom (renderTasks st)) = Items shown /\
    Permutation shown (candidates st) /\
    StronglySorted (displayOrder (sortMode st)) shown.
Proof.
  intros V T N.
  destruct (renderTasks_spec st V) as (_ & _ & _ & H & _).
  assert (Tc : Forall timed (candidates st)).
  { unfold candidates. destruct (activeTagFilter st); [|exact T].
    rewrite Forall_forall in *. intros t I. apply filter_In in I. now apply T. }
  exists (sort (compareTasks (sortMode st)) (candidates st)).
  split; [|split].
  - rewrite H. unfold renderedList. destruct (candidates st); congruence.
  - apply sort_perm.
  - apply (StronglySorted_weaken (before (compareTasks (sortMode st))) _ timed).
    + intros a b Ta Tb. now apply before_iff_displayOrder.
    + now rewrite (sort_perm _ (candidates st)).
    + apply (sort_sorted _ timed); [| |exact Tc].
      * intros a b Ta Tb.
        destruct (displayOrder_total (sortMode st) a b Ta Tb) as [D|D];
          [left|right]; now apply before_iff_displayOrder.
      * intros a b c Ta Tb Tc' Hab Hbc.
        apply before_iff_displayOrder; auto.
        apply (displayOrder_trans _ a b c);
          now apply before_iff_displayOrder.
Qed.


End Claims.

(* ================================================================= *)
(** * Further properties of the script *)

Section MutationFrames.
Context {P : Platform}.

(** ** What a mutation leaves behind *)

Lemma saveTasks_storage (st : State) :
  storage (saveTasks st)
  = snd (setItem (storage st) STORAGE_KEY
                 (JSON_stringify (tasksToJSON (theTasks st)))).
Proof. unfold saveTasks. now destruct (setItem _ _ _). Qed.

(** The state after a statement sequence "save, then render". *)
Lemma save_render_frame (s : State) :
  valid s ->
  let st' := renderTasks (saveTasks s) in
  valid st' /\
  theTasks st' = theTasks s /\
  tasks st' = tasks s /\
  world st' = world s /\
  sortMode st' = sortMode s /\
  activeTagFilter st' = activeTagFilter s /\
  activeTagLabel st' = activeTagLabel s /\
  storage st'
  = snd (setItem (storage s) STORAGE_KEY
                 (JSON_stringify (tasksToJSON (theTasks s)))).
Proof.
  intros V. simpl.
  destruct (renderTasks_spec (saveTasks s) (saveTasks_valid s V))
    as (Hv & Hl & Ht & _ & _ & Hm & Hf & Hb & Hs & Hw).
  destruct (saveTasks_frame s) as (Hm' & Hf' & Hb' & Hw' & _).
  destruct (saveTasks_heap s) as [_ Hl'].
  rewrite Ht, Hl, Hw, Hm, Hf, Hb, Hs, saveTasks_theTasks, saveTasks_storage.
  rewrite Hl', Hw', Hm', Hf', Hb'. repeat split; auto.
Qed.

(** The same after "rebind [tasks], save, render". *)
Lemma rebind_frame (st : State) (v : list Task) :
  let st' := renderTasks (saveTasks (assignTasks st v)) in
  valid st' /\
  theTasks st' = v /\
  world st' = world st /\
  sortMode st' = sortMode st /\
  activeTagFilter st' = activeTagFilter st /\
  activeTagLabel st' = activeTagLabel st /\
  storage st'
  = snd (setItem (storage st) STORAGE_KEY (JSON_stringify (tasksToJSON v))).
Proof.
  simpl.
  destruct (save_render_frame (assignTasks st v) (assignTasks_valid st v))
    as (Hv & Ht & _ & Hw & Hm & Hf & Hb & Hs).
  rewrite Ht, Hw, Hm, Hf, Hb, Hs, assignTasks_theTasks.
  repeat split; auto.
Qed.

(** What [addTask] does when it adds. *)
Lemma addTask_frame (st : State) (theTitle tagsInput : string) :
  Str.trim theTitle <> EmptyString ->
  valid st ->
  let st' := addTask st theTitle tagsInput in
  let idw := newId (world st) in
  let t := mkTask (fst idw) (Str.trim theTitle) false
                  (Fin (fst (Date_now (snd idw)))) (parseTags tagsInput) in
  valid st' /\
  theTasks st' = theTasks st ++ [t] /\
  world st' = snd (Date_now (snd idw)) /\
  sortMode st' = sortMode st /\
  activeTagFilter st' = activeTagFilter st /\
  activeTagLabel st' = activeTagLabel st /\
  storage st'
  = snd (setItem (storage st) STORAGE_KEY
                 (JSON_stringify (tasksToJSON (theTasks st ++ [t])))).
Proof.
  intros N V. simpl. unfold addTask.
  apply truthy_true_iff in N. rewrite N; simpl.
  destruct (newId (world st)) as [i w1]; simpl.
  match goal with |- valid (renderTasks (saveTasks ?s)) /\ _ =>
    assert (V2 : valid s)
      by (unfold valid; simpl; rewrite length_write; exact V);
    assert (T2 : theTasks s
                 = theTasks st ++
                   [mkTask i (Str.trim theTitle) false
                           (Fin (fst (Date_now w1))) (parseTags tagsInput)])
      by (unfold theTasks; simpl; now rewrite read_write_same by exact V);
    destruct (save_render_frame s V2) as (Hv & Ht & _ & Hw & Hm & Hf & Hb & Hs)
  end.
  rewrite Ht, Hw, Hm, Hf, Hb, Hs, T2. repeat split; auto.
Qed.

End MutationFrames.

(** ** Removing, toggling, clearing *)

Section Mutations.
Context {P : Platform}.

Lemma removeTask_theTasks (st : State) (theId : string) :
  theTasks (removeTask st theId)
  = filter (fun t => negb (String.eqb (id t) theId)) (theTasks st).
Proof. unfold removeTask. apply rebind_save_render. Qed.

Lemma clearCompletedTasks_theTasks (st : State) :
  theTasks (clearCompletedTasks st)
  = filter (fun t => negb (completed t)) (theTasks st).
Proof. unfold clearCompletedTasks. apply rebind_save_render. Qed.

Lemma filter_all {A} (f : A -> bool) (l : list A) :
  (forall x, In x l -> f x = true) -> filter f l = l.
Proof.
  induction l as [|x l IH]; simpl; intros H; [reflexivity|].
  rewrite (H x (or_introl eq_refl)), IH; auto.
Qed.

Lemma filter_twice {A} (f : A -> bool) (l : list A) :
  filter f (filter f l) = filter f l.
Proof.
  apply filter_all. intros x I. now apply filter_In in I.
Qed.

(** X1.  After [removeTask(id)] the collection holds exactly the tasks
    whose id is another one, in the order they had: no task with the id
    is left, every other task is still there, and removing the same id
    again changes nothing. *)
Theorem removeTask_removes (st : State) (theId : string) :
  let st' := removeTask st theId in
  (forall t, In t (theTasks st') <-> In t (theTasks st) /\ id t <> theId) /\
  theTasks st' = filter (fun t => negb (String.eqb (id t) theId)) (theTasks st) /\
  theTasks (removeTask st' theId) = theTasks st'.
Proof.
  simpl. rewrite !removeTask_theTasks.
  split; [|split; [reflexivity | apply filter_twice]].
  intros t. rewrite filter_In, negb_true_iff, String.eqb_neq. reflexivity.
Qed.

(** X2.  [removeTask] with an id that no task has leaves the collection
    as it was, element for element, and still calls [setItem] once. *)
Theorem removeTask_absent (st : State) (theId : string) :
  (forall t, In t (theTasks st) -> id t <> theId) ->
  theTasks (removeTask st theId) = theTasks st /\
  setItemCalls (storage (removeTask st theId)) = S (setItemCalls (storage st)).
Proof.
  intros A. split.
  - rewrite removeTask_theTasks. apply filter_all.
    intros t I. apply negb_true_iff. apply String.eqb_neq. now apply A.
  - unfold removeTask.
    destruct (rebind_frame st
                (filter (fun t => negb (String.eqb (id t) theId)) (theTasks st)))
      as (_ & _ & _ & _ & _ & _ & ->).
    unfold setItem. now destruct (accepts _ _ _).
Qed.

(** X3.  [toggleTaskCompleted(id)] keeps the number and the order of the
    tasks and every field but [completed], which it negates on the tasks
    with that id and on no other; with an id that no task has, the
    collection is the one before. *)
Theorem toggle_flips_matching (st : State) (theId : string) :
  let st' := toggleTaskCompleted st theId in
  Forall2 (toggledAt theId) (theTasks st) (theTasks st') /\
  List.length (theTasks st') = List.length (theTasks st) /\
  ((forall t, In t (theTasks st) -> id t <> theId) ->
   theTasks st' = theTasks st).
Proof.
  simpl. rewrite toggleTaskCompleted_theTasks.
  split; [|split].
  - induction (theTasks st) as [|t l IH]; simpl; constructor; auto.
    unfold toggledAt. destruct (String.eqb (id t) theId); simpl; auto 6.
  - apply length_map.
  - intros A. rewrite <- (map_id (theTasks st)) at 2.
    apply map_ext_in. intros t I.
    apply A in I. apply String.eqb_neq in I. now rewrite I.
Qed.

(** X4.  Toggles of two ids commute: the collection after toggling one
    and then the other does not depend on the order. *)
Theorem toggle_commutes (st : State) (i j : string) :
  theTasks (toggleTaskCompleted (toggleTaskCompleted st i) j)
  = theTasks (toggleTaskCompleted (toggleTaskCompleted st j) i).
Proof.
  rewrite !toggleTaskCompleted_theTasks, !map_map.
  apply map_ext. intros t.
  destruct t as [ti tt tc ta tg]; unfold flipCompleted; simpl.
  destruct (String.eqb ti i) eqn:Ei, (String.eqb ti j) eqn:Ej; simpl;
    rewrite ?Ei, ?Ej; reflexivity.
Qed.

(** X5.  After [clearCompletedTasks] no task of the collection is
    completed, the tasks that were not completed are all there in their
    order, the count of incomplete tasks is the one before and is now
    the size of the collection, and clearing again changes nothing. *)
Theorem clearCompleted_keeps_incomplete (st : State) :
  let st' := clearCompletedTasks st in
  Forall (fun t => completed t = false) (theTasks st') /\
  (forall t, In t (theTasks st') <->
             In t (theTasks st) /\ completed t = false) /\
  theTasks st' = filter (fun t => negb (completed t)) (theTasks st) /\
  incomplete (theTasks st') = incomplete (theTasks st) /\
  List.length (theTasks st') = incomplete (theTasks st) /\
  theTasks (clearCompletedTasks st') = theTasks st'.
Proof.
  simpl. rewrite !clearCompletedTasks_theTasks. unfold incomplete.
  rewrite !filter_twice.
  split; [|split; [|repeat split; reflexivity]].
  - apply Forall_forall. intros t I. apply filter_In in I as [_ I].
    now apply negb_true_iff.
  - intros t. rewrite filter_In, negb_true_iff. reflexivity.
Qed.

End Mutations.

(** ** The page after a render *)

Section PageFacts.
Context {P : Platform}.

(** The whole page after a render: list, count text, state of the clear
    button; the filter status is left as it was. *)
Lemma renderTasks_dom (st : State) :
  valid st ->
  dom (renderTasks st)
  = mkDom (renderedList st)
          (countSummary (incomplete (theTasks st)) (List.length (theTasks st)))
          (forallb (fun t => negb (completed t)) (theTasks st))
          (tagFilterUi (dom st)).
Proof.
  intros V. unfold valid in V.
  unfold renderTasks, renderedList, candidates.
  destruct st as [h l m f lab d s w]; simpl in *.
  destruct f as [f|]; unfold theTasks; simpl.
  - rewrite read_alloc_new.
    destruct (filter (matchesFilter f) (read h l)) as [|v vis] eqn:E; simpl.
    + unfold updateTaskCount, theTasks, incomplete; simpl.
      now rewrite read_alloc_old by exact V.
    + unfold updateTaskCount, theTasks, incomplete; simpl.
      assert (L : l < List.length (h ++ [v :: vis]))
        by (rewrite length_app; simpl; lia).
      rewrite read_alloc_new.
      rewrite read_write_same by (rewrite (length_app (h ++ _)); simpl; lia).
      rewrite !read_write_other by lia.
      rewrite !read_alloc_old by assumption.
      reflexivity.
  - destruct (read h l) as [|v vis] eqn:E; simpl.
    + unfold updateTaskCount, theTasks, incomplete; simpl. now rewrite E.
    + unfold updateTaskCount, theTasks, incomplete; simpl.
      rewrite read_alloc_new.
      rewrite read_write_same by (rewrite length_app; simpl; lia).
      rewrite !read_write_other by lia.
      rewrite !read_alloc_old by assumption.
      rewrite E. reflexivity.
Qed.

Lemma countSummary_spec (R T : nat) : countSummary R T = specSummary T R.
Proof. destruct T as [|[|T]], R as [|R]; reflexivity. Qed.

Lemma ofNat_head (n : nat) :
  exists c s, Str.ofNat n = String c s /\ Ref.isDigit c = true.
Proof.
  unfold Str.ofNat.
  destruct (Nat.to_uint n) as [|d|d|d|d|d|d|d|d|d|d] eqn:E; simpl;
    try (eexists; eexists; split; reflexivity).
  pose proof (DecimalNat.Unsigned.of_to n) as O. rewrite E in O.
  simpl in O. subst n. discriminate E.
Qed.

Lemma countSummary_counts (R T : nat) :
  T <> 0 -> R <> 0 ->
  countSummary R T <> "No tasks" /\ countSummary R T <> "All done".
Proof.
  intros HT HR. unfold countSummary.
  destruct T as [|T]; [congruence|]. destruct R as [|R]; [congruence|].
  simpl Nat.ltb. simpl Nat.eqb. cbv iota.
  destruct (ofNat_head (S R)) as (c & s & -> & D).
  simpl. split; intros H; injection H as Hc _; subst c; discriminate.
Qed.

Lemma incomplete_zero_iff (ts : list Task) :
  incomplete ts = 0 <-> Forall (fun t => completed t = true) ts.
Proof.
  unfold incomplete. induction ts as [|t ts IH]; simpl.
  - split; auto.
  - destruct (completed t) eqn:C; simpl.
    + rewrite IH. split; [intros H; constructor; auto|].
      intros H. now inversion H.
    + split; [discriminate|]. intros H. inversion H; congruence.
Qed.

Lemma forallb_incomplete_iff (ts : list Task) :
  forallb (fun t => negb (completed t)) ts = true <->
  Forall (fun t => completed t = false) ts.
Proof.
  rewrite forallb_forall, Forall_forall.
  split; intros H t I; specialize (H t I);
    [now apply negb_true_iff | now apply negb_true_iff].
Qed.

(** X6.  The count text tells the three situations apart: it is
    "No tasks" exactly for the empty collection, "All done" exactly for
    a collection that is not empty and has every task completed; the
    clear button is disabled exactly when no task is completed. *)
Theorem count_text_classifies (st : State) :
  let d := dom (updateTaskCount st) in
  (countText d = "No tasks" <-> theTasks st = []) /\
  (countText d = "All done" <->
     theTasks st <> [] /\
     Forall (fun t => completed t = true) (theTasks st)) /\
  (clearCompletedDisabled d = true <->
     Forall (fun t => completed t = false) (theTasks st)).
Proof.
  simpl. fold (incomplete (theTasks st)).
  split; [|split; [|apply forallb_incomplete_iff]].
  - destruct (theTasks st) as [|t ts] eqn:E; [split; reflexivity|].
    split; [|discriminate]. intros H. exfalso.
    destruct (incomplete (t :: ts)) as [|r] eqn:R.
    + discriminate H.
    + now apply (countSummary_counts (S r) (S (List.length ts))) in H.
  - rewrite <- incomplete_zero_iff.
    destruct (theTasks st) as [|t ts] eqn:E.
    + split; [discriminate|]. intros [N _]. congruence.
    + destruct (incomplete (t :: ts)) as [|r] eqn:R.
      * split; [intros _; split; [discriminate|reflexivity]|reflexivity].
      * split; [|intros [_ H]; discriminate].
        intros H. exfalso.
        now apply (countSummary_counts (S r) (S (List.length ts))) in H.
Qed.

(** X7.  Rendering twice shows the page of rendering once, and the
    count text and the clear button depend on the collection alone:
    two states with the same tasks show the same count and the same
    button state whatever their filters and sort modes. *)
Theorem render_page_stable (st st2 : State) :
  valid st -> valid st2 ->
  theTasks st2 = theTasks st ->
  dom (renderTasks (renderTasks st)) = dom (renderTasks st) /\
  countText (dom (renderTasks st2)) = countText (dom (renderTasks st)) /\
  clearCompletedDisabled (dom (renderTasks st2))
  = clearCompletedDisabled (dom (renderTasks st)).
Proof.
  intros V V2 E.
  destruct (renderTasks_spec st V) as (V' & _ & Ht & _ & _ & Hm & Hf & Hb & _).
  rewrite (renderTasks_dom (renderTasks st) V'), !(renderTasks_dom st V),
          (renderTasks_dom st2 V2).
  rewrite Ht, E. simpl. repeat split.
  unfold renderedList, candidates. now rewrite Ht, Hm, Hf, Hb.
Qed.

(** X8.  After [clearCompletedTasks] the clear button is disabled and
    the count text is "No tasks" when nothing is left and
    "n of n task(s) left" otherwise; it is never "All done". *)
Theorem clearCompleted_page (st : State) :
  let st' := clearCompletedTasks st in
  let n := incomplete (theTasks st) in
  clearCompletedDisabled (dom st') = true /\
  countText (dom st') = specSummary n n /\
  countText (dom st') <> "All done".
Proof.
  simpl. unfold clearCompletedTasks.
  set (v := filter (fun t => negb (completed t)) (theTasks st)).
  pose proof (saveTasks_valid _ (assignTasks_valid st v)) as V.
  rewrite (renderTasks_dom _ V). simpl.
  rewrite saveTasks_theTasks, assignTasks_theTasks.
  assert (Ei : incomplete v = List.length v)
    by (unfold incomplete, v; now rewrite filter_twice).
  assert (En : incomplete (theTasks st) = List.length v) by reflexivity.
  rewrite Ei, En, countSummary_spec. split; [|split; [reflexivity|]].
  - apply forallb_forall. intros t I. unfold v in I.
    now apply filter_In in I.
  - rewrite <- countSummary_spec.
    destruct (List.length v) as [|k] eqn:K; [discriminate|].
    now apply countSummary_counts.
Qed.

End PageFacts.

(** ** Intents and the storage *)

Section StorageFacts.
Context {P : Platform}.

Lemma setActiveTagFilter_frame (st : State) (tagLabel : option string) :
  valid st ->
  let st' := setActiveTagFilter st tagLabel in
  theTasks st' = theTasks st /\ tasks st' = tasks st /\
  storage st' = storage st /\ world st' = world st /\
  sortMode st' = sortMode st /\ valid st'.
Proof.
  intros V. simpl. unfold setActiveTagFilter.
  match goal with |- theTasks (renderTasks ?s) = _ /\ _ =>
    assert (F : valid s /\ theTasks s = theTasks st /\ tasks s = tasks st /\
                storage s = storage st /\ world s = world st /\
                sortMode s = sortMode st)
  end.
  { destruct tagLabel as [label|]; [destruct (String.eqb label "")|];
      simpl; (destruct (tagFilterUi (dom st)); simpl);
      repeat split; exact V. }
  destruct F as (V1 & T1 & L1 & S1 & W1 & M1).
  match goal with |- theTasks (renderTasks ?s) = _ /\ _ =>
    destruct (renderTasks_spec s V1)
      as (Hv & Hl & Ht & _ & _ & Hm & _ & _ & Hs & Hw)
  end.
  rewrite Ht, Hl, Hs, Hw, Hm. auto 7.
Qed.

Lemma view_step_frame (st : State) (a : Action) :
  valid st -> viewOnly a = true ->
  theTasks (step st a) = theTasks st /\ tasks (step st a) = tasks st /\
  storage (step st a) = storage st /\ world (step st a) = world st /\
  valid (step st a).
Proof.
  intros V A. destruct a as [ti tg|i|i| |tag|lbl|v]; try discriminate; simpl.
  - unfold onTagClick.
    destruct (activeTagFilter st) as [f|];
      [destruct (Str.truthy f && String.eqb f (Str.toLowerCase tag))|];
      match goal with |- theTasks (setActiveTagFilter _ ?l) = _ /\ _ =>
        destruct (setActiveTagFilter_frame st l V)
          as (H1 & H2 & H3 & H4 & _ & H6)
      end; auto 6.
  - destruct (setActiveTagFilter_frame st lbl V) as (H1 & H2 & H3 & H4 & _ & H6).
    auto 6.
  - unfold onSortChange.
    match goal with |- theTasks (renderTasks ?s) = _ /\ _ =>
      destruct (renderTasks_spec s V)
        as (Hv & Hl & Ht & _ & _ & _ & _ & _ & Hs & Hw)
    end.
    rewrite Ht, Hl, Hs, Hw. auto 6.
Qed.

Lemma no_mutation_step (st : State) (a : Action) :
  valid st -> mutates a = false ->
  theTasks (step st a) = theTasks st /\ storage (step st a) = storage st /\
  world (step st a) = world st /\ valid (step st a).
Proof.
  intros V M.
  destruct a as [ti tg|i|i| |tag|lbl|v]; try discriminate; simpl in M.
  - simpl. unfold addTask. rewrite M. simpl. auto.
  - destruct (view_step_frame st (ClickTag tag) V eq_refl)
      as (H1 & _ & H3 & H4 & H5).
    auto.
  - destruct (view_step_frame st (SetTagFilter lbl) V eq_refl)
      as (H1 & _ & H3 & H4 & H5).
    auto.
  - destruct (view_step_frame st (SetSort v) V eq_refl)
      as (H1 & _ & H3 & H4 & H5).
    auto.
Qed.

(** X9.  An intent that is not a mutation (a tag click, a filter change,
    a sort change, an add with a blank title) changes neither the task
    collection nor the storage, and makes no call of [setItem]. *)
Theorem no_mutation_no_write (st : State) (a : Action) :
  valid st ->
  mutates a = false ->
  theTasks (step st a) = theTasks st /\
  storage (step st a) = storage st /\
  setItemCalls (storage (step st a)) = setItemCalls (storage st).
Proof.
  intros V M. destruct (no_mutation_step st a V M) as (H1 & H2 & _).
  rewrite H1, H2. auto.
Qed.

Lemma mutation_storage (st : State) (a : Action) :
  valid st -> mutates a = true ->
  storage (step st a)
  = snd (setItem (storage st) STORAGE_KEY
                 (JSON_stringify (tasksToJSON (theTasks (step st a))))).
Proof.
  intros V M. destruct a as [ti tg|i|i| |tag|lbl|v]; try discriminate; simpl.
  - simpl in M. apply truthy_true_iff in M.
    destruct (addTask_frame st ti tg M V) as (_ & -> & _ & _ & _ & _ & ->).
    reflexivity.
  - unfold removeTask.
    match goal with |- storage (renderTasks (saveTasks (assignTasks _ ?v))) = _ =>
      destruct (rebind_frame st v) as (_ & -> & _ & _ & _ & _ & ->)
    end. reflexivity.
  - unfold toggleTaskCompleted.
    match goal with |- storage (renderTasks (saveTasks (assignTasks _ ?v))) = _ =>
      destruct (rebind_frame st v) as (_ & -> & _ & _ & _ & _ & ->)
    end. reflexivity.
  - unfold clearCompletedTasks.
    match goal with |- storage (renderTasks (saveTasks (assignTasks _ ?v))) = _ =>
      destruct (rebind_frame st v) as (_ & -> & _ & _ & _ & _ & ->)
    end. reflexivity.
Qed.

(** X10.  Every mutation (an add with a title that is not blank, a
    remove, a toggle, a clear) calls [setItem] exactly once, with the
    text of the collection it leaves: when the browser takes the write
    the stored text is that of the new collection, and when it refuses,
    the stored items are the ones before. *)
Theorem mutation_writes_once (st : State) (a : Action) :
  valid st ->
  mutates a = true ->
  let st' := step st a in
  let text := JSON_stringify (tasksToJSON (theTasks st')) in
  setItemCalls (storage st') = S (setItemCalls (storage st)) /\
  (accepts (storage st) STORAGE_KEY text = true ->
   getItem (storage st') STORAGE_KEY = Some text) /\
  (accepts (storage st) STORAGE_KEY text = false ->
   items (storage st') = items (storage st)).
Proof.
  intros V M. simpl. rewrite (mutation_storage st a V M).
  unfold setItem.
  destruct (accepts (storage st) STORAGE_KEY _) eqn:A; simpl;
    (split; [reflexivity|split]); intros; try reflexivity; discriminate.
Qed.

(** X11.  What an intent does to the collection does not depend on the
    storage: from two states with the same tasks and the same clock and
    identifier sources, whatever their stores, the same intent leads to
    the same collection. *)
Theorem collection_ignores_storage (st1 st2 : State) (a : Action) :
  valid st1 -> valid st2 ->
  theTasks st1 = theTasks st2 ->
  world st1 = world st2 ->
  theTasks (step st1 a) = theTasks (step st2 a).
Proof.
  intros V1 V2 T W.
  destruct (mutates a) eqn:M.
  - destruct a as [ti tg|i|i| |tag|lbl|v]; try discriminate; simpl.
    + simpl in M. apply truthy_true_iff in M.
      destruct (addTask_frame st1 ti tg M V1) as (_ & -> & _).
      destruct (addTask_frame st2 ti tg M V2) as (_ & -> & _).
      now rewrite T, W.
    + unfold removeTask. rewrite !rebind_save_render. now rewrite T.
    + unfold toggleTaskCompleted. rewrite !rebind_save_render. now rewrite T.
    + unfold clearCompletedTasks. rewrite !rebind_save_render. now rewrite T.
  - destruct (no_mutation_step st1 a V1 M) as [-> _].
    destruct (no_mutation_step st2 a V2 M) as [-> _]. exact T.
Qed.

End StorageFacts.

(** ** Start-up *)

Section StartUp.
Context {P : Platform}.

Lemma loadTasks_frame (st : State) :
  valid st ->
  valid (loadTasks st) /\ storage (loadTasks st) = storage st /\
  sortMode (loadTasks st) = sortMode st /\
  activeTagFilter (loadTasks st) = activeTagFilter st /\
  activeTagLabel (loadTasks st) = activeTagLabel st.
Proof.
  intros V. unfold loadTasks, loadTasksTry.
  destruct (getItem _ _) as [raw|]; [|auto 6].
  destruct (negb (Str.truthy raw)); [auto 6|].
  destruct (JSON_parse raw) as [[| | | |elts|]|]; auto 6;
    try (split; [apply assignTasks_valid | repeat split]).
  destruct (mapM coerceTask elts (world st)) as [[ts|] w];
    (split; [apply assignTasks_valid | repeat split]).
Qed.

(** X12.  Start-up only reads the storage: after [init] the stored
    items are the ones before, whatever they were (a text that does not
    parse is not overwritten), no [setItem] call has been made, and the
    sort mode and the filter are still the initial ones. *)
Theorem init_only_reads (d : Dom) (s : Storage) (w : World) :
  let st := init (boot d s w) in
  storage st = s /\
  sortMode st = SortCreatedAt /\
  activeTagFilter st = None /\
  valid st.
Proof.
  simpl. unfold init.
  assert (V : valid (boot d s w)) by (unfold valid; simpl; lia).
  destruct (loadTasks_frame (boot d s w) V) as (V' & Hs & Hm & Hf & _).
  destruct (renderTasks_spec _ V') as (V2 & _ & _ & _ & _ & -> & -> & _ & -> & _).
  rewrite Hs, Hm, Hf. auto.
Qed.

Context {L : PlatformLaws P}.

(** X13.  What a mutation saved is what the next start-up loads: when
    the collection a mutation leaves is well-formed and the browser took
    the write, [init] on a fresh page over that storage ends with the
    same collection. *)
Theorem reload_restores (st : State) (a : Action) (d : Dom) (w : World) :
  valid st ->
  mutates a = true ->
  let st' := step st a in
  wellFormed (theTasks st') ->
  accepts (storage st) STORAGE_KEY
          (JSON_stringify (tasksToJSON (theTasks st'))) = true ->
  theTasks (init (boot d (storage st') w)) = theTasks st'.
Proof.
  intros V M st' W A.
  assert (G : getItem (storage st') STORAGE_KEY
              = Some (JSON_stringify (tasksToJSON (theTasks st')))).
  { unfold st'. rewrite (mutation_storage st a V M). fold st'.
    unfold setItem. rewrite A. simpl. unfold getItem; simpl. reflexivity. }
  set (b := boot d (storage st') w).
  assert (Vb : valid b) by (unfold valid; simpl; lia).
  destruct (loadTasks_of_saved b (theTasks st') W G) as [Ht _].
  destruct (loadTasks_frame b Vb) as (V' & _).
  unfold init. destruct (renderTasks_spec _ V') as (_ & _ & -> & _).
  exact Ht.
Qed.

End StartUp.

(** ** Adding and removing *)

Section AddRemove.
Context {P : Platform}.

(** X14.  A task that was just added is taken away again by
    [removeTask] with its id: when no task of the collection already has
    the id the new task gets, adding and then removing that id gives
    back the collection. *)
Theorem add_then_remove (st : State) (theTitle tagsInput : string) :
  Str.trim theTitle <> EmptyString ->
  valid st ->
  let newTaskId := fst (newId (world st)) in
  (forall t, In t (theTasks st) -> id t <> newTaskId) ->
  theTasks (removeTask (addTask st theTitle tagsInput) newTaskId)
  = theTasks st.
Proof.
  intros N V newTaskId F.
  rewrite removeTask_theTasks.
  destruct (addTask_frame st theTitle tagsInput N V) as (_ & -> & _).
  rewrite filter_app. simpl. fold newTaskId.
  rewrite String.eqb_refl. simpl. rewrite app_nil_r.
  apply filter_all. intros t I.
  apply negb_true_iff, String.eqb_neq. now apply F.
Qed.

Lemma idsFrom_filter (gen : nat -> string) (st st' : State) (f : Task -> bool) :
  world st' = world st ->
  theTasks st' = filter f (theTasks st) ->
  idsFrom gen st -> NoDup (map id (theTasks st)) ->
  idsFrom gen st' /\ NoDup (map id (theTasks st')).
Proof.
  intros W T [G F] N. unfold idsFrom. rewrite W, T. split; [split; [exact G|]|].
  - apply Forall_forall. intros t I. apply filter_In in I as [I _].
    rewrite Forall_forall in F. now apply F.
  - clear T F. induction (theTasks st) as [|t l IH]; simpl; [constructor|].
    inversion N as [|? ? Nt Nl]; subst.
    destruct (f t); simpl; [|now apply IH].
    constructor; [|now apply IH].
    intros I. apply Nt. apply in_map_iff in I as (u & E & I).
    apply in_map_iff. exists u. split; [exact E|].
    now apply filter_In in I.
Qed.

Lemma idsFrom_step (gen : nat -> string) (st : State) (a : Action) :
  injective gen ->
  valid st -> idsFrom gen st -> NoDup (map id (theTasks st)) ->
  valid (step st a) /\ idsFrom gen (step st a) /\
  NoDup (map id (theTasks (step st a))).
Proof.
  intros J V [G F] N.
  destruct (mutates a) eqn:M.
  - destruct a as [ti tg|i|i| |tag|lbl|v]; try discriminate; simpl.
    + simpl in M. apply truthy_true_iff in M.
      destruct (addTask_frame st ti tg M V) as (V' & T & W & _).
      split; [exact V'|].
      assert (Ew : newId (world st)
                   = (gen (uuidCalls (world st)),
                      mkWorld (randomUUID (world st)) (S (uuidCalls (world st)))
                              (clock (world st)) (clockReads (world st))
                              (randomText (world st)) (randomDraws (world st)))).
      { unfold newId, crypto_randomUUID. now rewrite G. }
      rewrite Ew in T, W. simpl in T, W.
      unfold idsFrom. rewrite T, W. simpl.
      split; [split; [exact G|]|].
      * apply Forall_app. split.
        -- eapply Forall_impl; [|exact F]. intros t (k & Hk & E).
           exists k. split; [lia|exact E].
        -- constructor; [|constructor]. exists (uuidCalls (world st)).
           simpl. split; [lia|reflexivity].
      * rewrite map_app. simpl.
        apply NoDup_app; [exact N | repeat constructor; intros [] |].
        intros x I [E|[]]. subst x.
        apply in_map_iff in I as (t & E & I).
        rewrite Forall_forall in F. destruct (F t I) as (k & Hk & Ek).
        rewrite Ek in E. apply J in E. lia.
    + unfold removeTask.
      match goal with |- valid (renderTasks (saveTasks (assignTasks _ ?v))) /\ _ =>
        destruct (rebind_frame st v) as (V' & T & W & _)
      end.
      split; [exact V'|].
      eapply idsFrom_filter; eauto. now split.
    + unfold toggleTaskCompleted.
      match goal with |- valid (renderTasks (saveTasks (assignTasks _ ?v))) /\ _ =>
        destruct (rebind_frame st v) as (V' & T & W & _)
      end.
      split; [exact V'|].
      unfold idsFrom. rewrite T, W, map_map.
      assert (E : forall t : Task,
                 id (if String.eqb (id t) i then flipCompleted t else t) = id t)
        by (intros t; now destruct (String.eqb (id t) i)).
      rewrite (map_ext _ id E).
      split; [split; [exact G|]|exact N].
      apply Forall_forall. intros t I.
      apply in_map_iff in I as (u & <- & I). rewrite E.
      rewrite Forall_forall in F. now apply F.
    + unfold clearCompletedTasks.
      match goal with |- valid (renderTasks (saveTasks (assignTasks _ ?v))) /\ _ =>
        destruct (rebind_frame st v) as (V' & T & W & _)
      end.
      split; [exact V'|].
      eapply idsFrom_filter; eauto. now split.
  - destruct (no_mutation_step st a V M) as (T & _ & W & V').
    split; [exact V'|]. unfold idsFrom. rewrite T, W. auto.
Qed.

(** X15.  With an identifier source that never repeats itself, a
    session that starts from an empty collection never holds two tasks
    with the same id, whatever the intents. *)
Theorem ids_stay_unique (gen : nat -> string) (st : State) (acts : list Action) :
  injective gen ->
  valid st ->
  randomUUID (world st) = Some gen ->
  theTasks st = [] ->
  NoDup (map id (theTasks (run st acts))).
Proof.
  intros J V G E.
  assert (I : idsFrom gen st) by (split; [exact G | rewrite E; constructor]).
  assert (N : NoDup (map id (theTasks st))) by (rewrite E; constructor).
  clear E G. unfold run. revert st V I N.
  induction acts as [|a acts IH]; intros st V I N; simpl; [exact N|].
  destruct (idsFrom_step gen st a J V I N) as (V' & I' & N').
  now apply IH.
Qed.


End AddRemove.

(** ** Tidy collections *)

Section Tidy.
Context {P : Platform}.

Lemma bind_some {A B} (m : Eff A) (k : A -> Eff B) (w w' : World) (b : B) :
  bind m k w = (Some b, w') ->
  exists a w1, m w = (Some a, w1) /\ k a w1 = (Some b, w').
Proof.
  unfold bind. destruct (m w) as [[a|] w1]; [|discriminate].
  intros H. now exists a, w1.
Qed.

Lemma mapM_trimmed (elts : list json) (w w' : World) (texts : list string) :
  mapM (fun tag => s <- orThrow (Coerce.ToString tag) ;; ret (Str.trim s)) elts w
  = (Some texts, w') ->
  Forall (fun x => Str.trim x = x) texts.
Proof.
  revert w w' texts. induction elts as [|e elts IH]; intros w w' texts; simpl.
  - intros [= <- _]. constructor.
  - intros H.
    apply bind_some in H as (x & w1 & Hx & H).
    apply bind_some in H as (xs & w2 & Hxs & H).
    injection H as <- _.
    constructor; [|now apply (IH w1 w2)].
    apply bind_some in Hx as (s & w3 & _ & Hx).
    injection Hx as <- _. apply trim_idem.
Qed.

(** Whatever the stored element, a task that comes out of the callback
    of [loadTasks] has a trimmed title and trimmed tags that are not
    empty. *)
Lemma coerceTask_tidy (t : json) (w w' : World) (task : Task) :
  coerceTask t w = (Some task, w') -> tidy task.
Proof.
  unfold coerceTask. intros H.
  apply bind_some in H as (rawId & w1 & _ & H).
  apply bind_some in H as (theId & w2 & _ & H).
  apply bind_some in H as (rawTitle & w3 & _ & H).
  apply bind_some in H as (theTitle & w4 & _ & H).
  apply bind_some in H as (rawCompleted & w5 & _ & H).
  apply bind_some in H as (rawCreatedAt & w6 & _ & H).
  apply bind_some in H as (theCreatedAt & w7 & _ & H).
  apply bind_some in H as (rawTags & w8 & _ & H).
  apply bind_some in H as (theTags & w9 & Hg & H).
  injection H as <- _. split; simpl; [apply trim_idem|].
  destruct rawTags as [[| | | |elts|]|];
    try (injection Hg as <- _; constructor).
  apply bind_some in Hg as (texts & w10 & Ht & Hg).
  injection Hg as <- _.
  apply mapM_trimmed in Ht.
  apply Forall_forall. intros x I. apply filter_In in I as [I T].
  rewrite Forall_forall in Ht.
  split; [now apply Ht | now apply truthy_true_iff].
Qed.

Lemma mapM_coerceTask_tidy (elts : list json) (w w' : World) (ts : list Task) :
  mapM coerceTask elts w = (Some ts, w') -> Forall tidy ts.
Proof.
  revert w w' ts. induction elts as [|e elts IH]; intros w w' ts; simpl.
  - intros [= <- _]. constructor.
  - intros H.
    apply bind_some in H as (x & w1 & Hx & H).
    apply bind_some in H as (xs & w2 & Hxs & H).
    injection H as <- _.
    constructor; [now apply coerceTask_tidy in Hx | now apply (IH w1 w2)].
Qed.

Lemma loadTasks_tidy (st : State) :
  Forall tidy (theTasks st) -> Forall tidy (theTasks (loadTasks st)).
Proof.
  intros T. unfold loadTasks, loadTasksTry.
  destruct (getItem _ _) as [raw|]; [|exact T].
  destruct (negb (Str.truthy raw)); [exact T|].
  destruct (JSON_parse raw) as [[| | | |elts|]|]; try exact T;
    try (rewrite assignTasks_theTasks; constructor).
  destruct (mapM coerceTask elts (world st)) as [[ts|] w] eqn:M;
    rewrite assignTasks_theTasks; [|constructor].
  now apply mapM_coerceTask_tidy in M.
Qed.

Lemma step_valid (st : State) (a : Action) : valid st -> valid (step st a).
Proof.
  intros V. destruct (mutates a) eqn:M.
  - destruct a as [ti tg|i|i| |tag|lbl|v]; try discriminate; simpl.
    + simpl in M. apply truthy_true_iff in M.
      now destruct (addTask_frame st ti tg M V) as (V' & _).
    + apply rebind_save_render_valid.
    + apply rebind_save_render_valid.
    + apply rebind_save_render_valid.
  - now destruct (no_mutation_step st a V M) as (_ & _ & _ & V').
Qed.

Lemma step_tidy (st : State) (a : Action) :
  valid st -> Forall tidy (theTasks st) -> Forall tidy (theTasks (step st a)).
Proof.
  intros V T. destruct (mutates a) eqn:M.
  - destruct a as [ti tg|i|i| |tag|lbl|v]; try discriminate; simpl.
    + simpl in M. apply truthy_true_iff in M.
      destruct (addTask_frame st ti tg M V) as (_ & -> & _).
      apply Forall_app. split; [exact T|].
      constructor; [|constructor].
      split; simpl; [apply trim_idem | apply parseTags_trimmed].
    + rewrite removeTask_theTasks.
      apply Forall_forall. intros t I. apply filter_In in I as [I _].
      rewrite Forall_forall in T. now apply T.
    + rewrite toggleTaskCompleted_theTasks.
      apply Forall_forall. intros t I.
      apply in_map_iff in I as (u & <- & I).
      rewrite Forall_forall in T. specialize (T u I).
      destruct (String.eqb (id u) i); [|exact T].
      destruct u; exact T.
    + rewrite clearCompletedTasks_theTasks.
      apply Forall_forall. intros t I. apply filter_In in I as [I _].
      rewrite Forall_forall in T. now apply T.
  - destruct (no_mutation_step st a V M) as (-> & _). exact T.
Qed.

(** X16.  Whatever the storage holds at start-up and whatever the
    intents that follow, every task of the collection has a trimmed
    title and tags that are trimmed and not empty: neither the load nor
    any operation lets an empty tag or a padded title in. *)
Theorem session_keeps_tidy (d : Dom) (s : Storage) (w : World) (acts : list Action) :
  Forall tidy (theTasks (run (init (boot d s w)) acts)).
Proof.
  assert (V : valid (init (boot d s w)) /\
              Forall tidy (theTasks (init (boot d s w)))).
  { unfold init.
    assert (Vb : valid (boot d s w)) by (unfold valid; simpl; lia).
    destruct (loadTasks_frame (boot d s w) Vb) as (V' & _).
    destruct (renderTasks_spec _ V') as (V2 & _ & -> & _).
    split; [exact V2|]. apply loadTasks_tidy. constructor. }
  unfold run. revert V. generalize (init (boot d s w)) as st.
  induction acts as [|a acts IH]; intros st [V T]; simpl; [exact T|].
  apply IH. split; [now apply step_valid | now apply step_tidy].
Qed.

End Tidy.

(** ** Saving and loading any collection *)

Section Normalise.
Context {P : Platform} {L : PlatformLaws P}.

Lemma coerceTask_normalises (t : Task) (w : World) :
  Num.isFinite (createdAt t) = true ->
  coerceTask (taskToJSON t) w = (Some (normalise t), w).
Proof.
  destruct t as [i ti c ca tg]. simpl. intros F.
  destruct ca as [| |z|]; try discriminate.
  unfold coerceTask, taskToJSON, normalise, bind, orThrow, liftW, ret. simpl.
  pose proof (mapM_tag_strings tg w) as M.
  unfold bind, orThrow, ret in M. now rewrite M.
Qed.

Lemma mapM_normalises (ts : list Task) (w : World) :
  Forall (fun t => Num.isFinite (createdAt t) = true) ts ->
  mapM coerceTask (map taskToJSON ts) w = (Some (map normalise ts), w).
Proof.
  induction 1 as [|t ts Ht Hts IH]; simpl; [reflexivity|].
  unfold bind at 1. rewrite (coerceTask_normalises t w Ht).
  unfold bind at 1. now rewrite IH.
Qed.

Lemma normalise_tidy (t : Task) : tidy t -> normalise t = t.
Proof.
  destruct t as [i ti c ca tg]. intros [Ht Hg]; simpl in *.
  unfold normalise; simpl. now rewrite Ht, (trimmed_tags_kept tg Hg).
Qed.

Lemma normalise_is_tidy (t : Task) : tidy (normalise t).
Proof.
  split; simpl; [apply trim_idem|].
  apply Forall_forall. intros x I. apply filter_In in I as [I T].
  apply in_map_iff in I as (y & <- & _).
  split; [apply trim_idem | now apply truthy_true_iff].
Qed.

(** X17.  For any collection whose timestamps are finite, a save the
    browser takes followed by a load keeps the number and the order of
    the tasks and their ids, completed flags and timestamps, trims the
    titles, and trims the tags and drops the empty ones; a collection
    that is already tidy (an empty title included) comes back unchanged,
    and saving and loading a second time changes nothing more. *)
Theorem save_load_normalises (st : State) :
  Forall (fun t => Num.isFinite (createdAt t) = true) (theTasks st) ->
  accepts (storage st) STORAGE_KEY
          (JSON_stringify (tasksToJSON (theTasks st))) = true ->
  theTasks (loadTasks (saveTasks st)) = map normalise (theTasks st) /\
  (Forall tidy (theTasks st) ->
   theTasks (loadTasks (saveTasks st)) = theTasks st) /\
  map normalise (map normalise (theTasks st)) = map normalise (theTasks st).
Proof.
  intros F A.
  pose proof (saveTasks_stored st A) as G.
  assert (H : theTasks (loadTasks (saveTasks st)) = map normalise (theTasks st)).
  { rewrite (loadTasks_parsed _ _ _ G (JSON_stringify_nonempty _)
               (JSON_parse_stringify _)).
    unfold tasksToJSON. rewrite (mapM_normalises _ _ F).
    apply assignTasks_theTasks. }
  split; [exact H|split].
  - intros T. rewrite H. rewrite <- (map_id (theTasks st)) at 2.
    apply map_ext_in. intros t I. apply normalise_tidy.
    rewrite Forall_forall in T. now apply T.
  - rewrite map_map. apply map_ext. intros t.
    apply normalise_tidy, normalise_is_tidy.
Qed.

End Normalise.

(** ** The tag filter *)

Section FilterFacts.
Context {P : Platform}.

Lemma setActiveTagFilter_vars (st : State) (tagLabel : option string) :
  valid st ->
  let st' := setActiveTagFilter st tagLabel in
  let cleared := match tagLabel with
                 | None => true
                 | Some label => String.eqb label EmptyString
                 end in
  activeTagFilter st'
  = (if cleared then None
     else option_map Str.toLowerCase tagLabel) /\
  activeTagLabel st'
  = (if cleared then EmptyString
     else match tagLabel with Some label => label | None => EmptyString end) /\
  tagFilterUi (dom st')
  = match tagFilterUi (dom st) with
    | None => None
    | Some _ =>
        Some (if cleared then (true, EmptyString)
              else (false, match tagLabel with
                           | Some label => label
                           | None => EmptyString
                           end))
    end.
Proof.
  intros V. simpl. unfold setActiveTagFilter.
  match goal with |- activeTagFilter (renderTasks ?s) = _ /\ _ =>
    assert (V1 : valid s)
      by (destruct tagLabel as [label|]; [destruct (String.eqb label "")|];
          simpl; (destruct (tagFilterUi (dom st)); exact V));
    destruct (renderTasks_spec s V1) as (_ & _ & _ & _ & _ & _ & -> & -> & _);
    rewrite (renderTasks_dom s V1)
  end.
  clear V1.
  destruct st as [h l m f lab [lc ct cd ui] s w]; simpl.
  destruct tagLabel as [label|]; simpl.
  - destruct (String.eqb_spec label ""); simpl.
    + destruct ui; simpl; auto.
    + assert (T : Str.truthy (Str.toLowerCase label) = true).
      { apply truthy_true_iff. now rewrite toLowerCase_empty_iff. }
      destruct ui; simpl; rewrite ?T; auto.
  - destruct ui; simpl; auto.
Qed.

(** X18.  The clear-filter button calls [setActiveTagFilter] with
    [null]; that call, like a call with the empty label, clears the
    filter: no filter, no label, the status hidden and its text
    emptied, and every task of the collection displayed.  With any
    other label the filter is the lowercased label, the label is kept as
    given and the status shows it. *)
Theorem setActiveTagFilter_edges (st : State) (label : string) :
  valid st ->
  let off := onClearTagFilter st in
  let empty := setActiveTagFilter st (Some EmptyString) in
  let on := setActiveTagFilter st (Some label) in
  (activeTagFilter off = None /\ activeTagLabel off = EmptyString /\
   activeTagFilter empty = None /\ activeTagLabel empty = EmptyString /\
   dom empty = dom off /\
   (forall t, In t (theTasks st) -> displayed off t) /\
   (tagFilterUi (dom st) <> None ->
    tagFilterUi (dom off) = Some (true, EmptyString))) /\
  (label <> EmptyString ->
   activeTagFilter on = Some (Str.toLowerCase label) /\
   activeTagLabel on = label /\
   (tagFilterUi (dom st) <> None ->
    tagFilterUi (dom on) = Some (false, label))).
Proof.
  intros V. simpl. unfold onClearTagFilter.
  destruct (setActiveTagFilter_vars st None V) as (F0 & L0 & U0).
  destruct (setActiveTagFilter_vars st (Some "") V) as (F1 & L1 & U1).
  destruct (setActiveTagFilter_vars st (Some label) V) as (F2 & L2 & U2).
  simpl in *.
  assert (D : forall t, In t (theTasks st) ->
                displayed (setActiveTagFilter st None) t).
  { intros t I. unfold displayed.
    unfold setActiveTagFilter; simpl.
    match goal with |- context [renderTasks ?s] =>
      assert (V1 : valid s) by (destruct (tagFilterUi (dom st)); exact V);
      rewrite (renderTasks_dom s V1);
      assert (C : candidates s = theTasks st)
        by (destruct (tagFilterUi (dom st)); reflexivity)
    end.
    simpl. unfold renderedList. rewrite C.
    destruct (theTasks st) as [|x l] eqn:E; [destruct I|].
    eexists. split; [reflexivity|].
    match goal with |- In t (sort ?c ?l) =>
      apply (Permutation_in _ (Permutation_sym (sort_perm c l)))
    end.
    exact I. }
  split; [split; [|split; [|split; [|split; [|split; [|split]]]]]|].
  - exact F0.
  - exact L0.
  - exact F1.
  - exact L1.
  - reflexivity.
  - exact D.
  - intros N. rewrite U0. destruct (tagFilterUi (dom st)); congruence.
  - intros N. apply String.eqb_neq in N. rewrite N in *. simpl in *.
    split; [exact F2|split; [exact L2|]].
    intros N'. rewrite U2. destruct (tagFilterUi (dom st)); congruence.
Qed.

End FilterFacts.

(* ================================================================= *)
(** ** Clicks on a tag, the sort selector *)

Section ClickFacts.
Context {P : Platform}.

Lemma onTagClick_other (st : State) (tag : string) :
  activeTagFilter st <> Some (Str.toLowerCase tag) ->
  onTagClick st tag = setActiveTagFilter st (Some tag).
Proof.
  intros N. unfold onTagClick.
  destruct (activeTagFilter st) as [f|]; [|reflexivity].
  destruct (String.eqb_spec f (Str.toLowerCase tag)) as [->|_];
    [congruence|].
  now rewrite andb_false_r.
Qed.

Lemma onTagClick_same (st : State) (tag : string) :
  tag <> EmptyString ->
  activeTagFilter st = Some (Str.toLowerCase tag) ->
  onTagClick st tag = setActiveTagFilter st None.
Proof.
  intros N E. unfold onTagClick. rewrite E.
  rewrite String.eqb_refl.
  assert (T : Str.truthy (Str.toLowerCase tag) = true)
    by (apply truthy_true_iff; now rewrite toLowerCase_empty_iff).
  now rewrite T.
Qed.

(** X19.  A click on a tag that is not the filter makes its lowercase
    form the filter and the tag the label; a click that follows, on any
    tag with the same lowercase form, clears filter and label again.
    Neither click changes the collection. *)
Theorem tag_click_toggles (st : State) (tag tag' : string) :
  valid st ->
  tag <> EmptyString ->
  activeTagFilter st <> Some (Str.toLowerCase tag) ->
  Str.toLowerCase tag' = Str.toLowerCase tag ->
  let st1 := onTagClick st tag in
  let st2 := onTagClick st1 tag' in
  activeTagFilter st1 = Some (Str.toLowerCase tag) /\
  activeTagLabel st1 = tag /\
  activeTagFilter st2 = None /\
  activeTagLabel st2 = EmptyString /\
  theTasks st1 = theTasks st /\
  theTasks st2 = theTasks st.
Proof.
  intros V N O E. simpl.
  rewrite (onTagClick_other st tag O).
  destruct (setActiveTagFilter_vars st (Some tag) V) as (F1 & L1 & _).
  destruct (setActiveTagFilter_spec st (Some tag) V) as (V1 & _ & T1).
  cbv zeta in F1, L1.
  apply String.eqb_neq in N. rewrite N in F1, L1. cbv iota in F1, L1.
  apply String.eqb_neq in N.
  assert (N' : tag' <> EmptyString).
  { intros ->. apply N, toLowerCase_empty_iff. now rewrite <- E. }
  change (option_map Str.toLowerCase (Some tag))
    with (Some (Str.toLowerCase tag)) in F1.
  rewrite <- E in F1.
  rewrite (onTagClick_same _ tag' N' F1).
  destruct (setActiveTagFilter_vars _ None V1) as (F2 & L2 & _).
  destruct (setActiveTagFilter_spec _ None V1) as (_ & _ & T2).
  simpl in F2, L2.
  rewrite F1, L1, F2, L2, T2, T1, E. auto 6.
Qed.

Lemma onSortChange_displayed (st : State) (value : string) (t : Task) :
  valid st ->
  displayed (onSortChange st value) t <-> In t (candidates st).
Proof.
  intros V. unfold displayed, onSortChange.
  match goal with |- context [renderTasks ?s] =>
    assert (V1 : valid s) by exact V;
    rewrite (renderTasks_dom s V1);
    assert (C : candidates s = candidates st) by reflexivity
  end.
  simpl. unfold renderedList. rewrite C.
  destruct (candidates st) as [|x l] eqn:Ec.
  - split; [intros (shown & H & _); discriminate H | intros []].
  - split.
    + intros (shown & H & I). injection H as <-.
      eapply Permutation_in; [apply sort_perm | exact I].
    + intros I. eexists. split; [reflexivity|].
      eapply Permutation_in; [apply Permutation_sym, sort_perm | exact I].
Qed.

(** X20.  The listener of the sort selector sorts by tag for the value
    ["tag"] and by creation time for every other value.  The choice
    changes neither the collection nor which tasks are on the page: any
    two values display the same tasks. *)
Theorem sort_change_same_tasks (st : State) (v1 v2 : string) :
  valid st ->
  (sortMode (onSortChange st v1) = SortTag <-> v1 = "tag"%string) /\
  (sortMode (onSortChange st v1) = SortCreatedAt <-> v1 <> "tag"%string) /\
  theTasks (onSortChange st v1) = theTasks st /\
  (forall t, displayed (onSortChange st v1) t <->
             displayed (onSortChange st v2) t).
Proof.
  intros V.
  assert (M : sortMode (onSortChange st v1)
              = if String.eqb v1 "tag" then SortTag else SortCreatedAt).
  { unfold onSortChange.
    match goal with |- sortMode (renderTasks ?s) = _ =>
      assert (V1 : valid s) by exact V;
      destruct (renderTasks_spec s V1) as (_ & _ & _ & _ & _ & -> & _)
    end. reflexivity. }
  assert (T : theTasks (onSortChange st v1) = theTasks st).
  { unfold onSortChange.
    match goal with |- theTasks (renderTasks ?s) = _ =>
      assert (V1 : valid s) by exact V;
      destruct (renderTasks_spec s V1) as (_ & _ & -> & _)
    end. reflexivity. }
  rewrite M.
  split; [|split; [|split; [exact T|]]].
  - destruct (String.eqb_spec v1 "tag"); split; congruence.
  - destruct (String.eqb_spec v1 "tag"); split; congruence.
  - intros t. now rewrite !onSortChange_displayed.
Qed.

Lemma insert_ext {A : Type} (c1 c2 : A -> A -> number) (x : A) (l : list A) :
  (forall y, In y l -> c1 x y = c2 x y) ->
  insert c1 x l = insert c2 x l.
Proof.
  induction l as [|y l IH]; simpl; [reflexivity|].
  intros H. rewrite (H y (or_introl eq_refl)), IH; auto.
Qed.

Lemma sort_ext {A : Type} (c1 c2 : A -> A -> number) (l : list A) :
  (forall x y, In x l -> In y l -> c1 x y = c2 x y) ->
  sort c1 l = sort c2 l.
Proof.
  induction l as [|x l IH]; simpl; [reflexivity|].
  intros H. rewrite IH by auto.
  apply insert_ext. intros y I. apply H; [now left|right].
  eapply Permutation_in; [apply sort_perm | exact I].
Qed.

Lemma untagged_sortTag (a : Task) : untagged a -> sortTag a = EmptyString.
Proof.
  unfold untagged, firstTag, sortTag.
  destruct (tags a) as [|first rest]; simpl; [reflexivity|].
  now intros ->.
Qed.

Lemma candidates_incl (st : State) (t : Task) :
  In t (candidates st) -> In t (theTasks st).
Proof.
  unfold candidates. destruct (activeTagFilter st); [|auto].
  intros I. now apply filter_In in I.
Qed.

(** X24.  When no task of the collection has a first tag, the sort
    selector changes nothing on the page: sorting by tag shows the
    tasks in the order sorting by creation time shows them. *)
Theorem untagged_sort_modes_agree (st : State) (v1 v2 : string) :
  valid st ->
  Forall untagged (theTasks st) ->
  dom (onSortChange st v1) = dom (onSortChange st v2).
Proof.
  intros V U. unfold onSortChange.
  rewrite !renderTasks_dom by exact V.
  f_equal. unfold renderedList.
  change (candidates (setSortMode st ?m)) with (candidates st).
  destruct (candidates st) as [|x l] eqn:E; [reflexivity|].
  f_equal. simpl sortMode.
  assert (S : forall m, sort (compareTasks m) (x :: l)
                        = sort (compareTasks SortCreatedAt) (x :: l)).
  { intros m. apply sort_ext. intros a b Ia Ib.
    destruct m; [reflexivity|].
    rewrite <- E in Ia, Ib.
    apply candidates_incl in Ia, Ib.
    rewrite Forall_forall in U.
    unfold compareTasks.
    now rewrite (untagged_sortTag a (U a Ia)), (untagged_sortTag b (U b Ib)). }
  now rewrite !S.
Qed.

End ClickFacts.

(* ================================================================= *)
(** ** The form *)

Section SubmitFacts.
Context {P : Platform}.

Lemma addTask_blank (st : State) (tagsInput : string) :
  addTask st EmptyString tagsInput = st.
Proof. reflexivity. Qed.

(** X21.  [handleFormSubmit] prevents the default action, empties the
    title input (and the tags input when the page has one) and focuses
    the title input, whatever the title was.  Submitting the form again
    as the handler left it changes neither the state nor the form; and
    on a page without a tags input a task is added without tags. *)
Theorem submit_resets_form (st : State) (f : Form) :
  let r := handleFormSubmit st f in
  inputValue (snd r) = EmptyString /\
  inputFocused (snd r) = true /\
  defaultPrevented (snd r) = true /\
  (tagsInputValue (snd r) = None <-> tagsInputValue f = None) /\
  handleFormSubmit (fst r) (snd r) = r /\
  (valid st -> Str.trim (inputValue f) <> EmptyString ->
   tagsInputValue f = None ->
   exists t, theTasks (fst r) = theTasks st ++ [t] /\
             title t = Str.trim (inputValue f) /\ tags t = []).
Proof.
  simpl. unfold handleFormSubmit. simpl.
  split; [reflexivity|]. split; [reflexivity|]. split; [reflexivity|].
  split; [destruct (tagsInputValue f); split; congruence|].
  split.
  - destruct (tagsInputValue f); reflexivity.
  - intros V N E. rewrite E.
    destruct (addTask_result st (inputValue f) EmptyString N V)
      as (H & _).
    eexists. split; [exact H|]. split; reflexivity.
Qed.

Lemma incomplete_snoc (ts : list Task) (t : Task) :
  completed t = false -> incomplete (ts ++ [t]) = S (incomplete ts).
Proof.
  intros C. unfold incomplete. rewrite filter_app, length_app. simpl.
  rewrite C. simpl. lia.
Qed.

(** X22.  After an add with a title that is not blank the count line
    counts one task more and one open task more than the collection
    had, so it is neither ["No tasks"] nor ["All done"]; the clear
    button is enabled exactly when the collection had a completed
    task. *)
Theorem add_page (st : State) (theTitle tagsInput : string) :
  valid st ->
  Str.trim theTitle <> EmptyString ->
  let st' := addTask st theTitle tagsInput in
  countText (dom st')
  = specSummary (S (List.length (theTasks st)))
                (S (incomplete (theTasks st))) /\
  countText (dom st') <> "No tasks"%string /\
  countText (dom st') <> "All done"%string /\
  clearCompletedDisabled (dom st')
  = forallb (fun t => negb (completed t)) (theTasks st).
Proof.
  intros V N. simpl.
  destruct (addTask_result st theTitle tagsInput N V) as (H & _).
  revert H. unfold addTask.
  pose proof N as N'. apply truthy_true_iff in N'. rewrite N'; simpl.
  destruct (newId (world st)) as [i w1]; simpl.
  match goal with |- theTasks (renderTasks (saveTasks ?s)) = _ -> _ =>
    assert (V2 : valid s)
      by (unfold valid; simpl; rewrite length_write; exact V);
    pose proof (saveTasks_valid s V2) as V3;
    destruct (renderTasks_spec (saveTasks s) V3) as (_ & _ & -> & _);
    rewrite (renderTasks_dom (saveTasks s) V3)
  end.
  intros ->. simpl.
  rewrite last_length, incomplete_snoc by reflexivity.
  rewrite countSummary_spec.
  split; [reflexivity|].
  rewrite <- countSummary_spec.
  destruct (countSummary_counts (S (incomplete (theTasks st)))
                                (S (List.length (theTasks st))))
    as [A B]; [lia|lia|].
  split; [exact A|]. split; [exact B|].
  rewrite forallb_app. simpl. now rewrite !andb_true_r.
Qed.

End SubmitFacts.

(* ================================================================= *)
(** ** Tag text *)

Section TagText.

Lemma commaFree_trimStart (s : string) :
  commaFree s = true -> commaFree (Str.trimStart s) = true.
Proof.
  induction s as [|c s IH]; simpl; [auto|].
  intros H. destruct (Str.isWhiteSpace c); [|exact H].
  apply andb_true_iff in H as [_ H]. auto.
Qed.

Lemma commaFree_trimEnd (s : string) :
  commaFree s = true -> commaFree (Str.trimEnd s) = true.
Proof.
  induction s as [|c s IH]; simpl; [auto|].
  intros H. apply andb_true_iff in H as [Hc H]. specialize (IH H).
  destruct (Str.trimEnd s) as [|d r].
  - destruct (Str.isWhiteSpace c); simpl; [reflexivity|].
    now rewrite Hc.
  - simpl in *. now rewrite Hc, IH.
Qed.

Lemma commaFree_trim (s : string) :
  commaFree s = true -> commaFree (Str.trim s) = true.
Proof. intros H. now apply commaFree_trimEnd, commaFree_trimStart. Qed.

Lemma split_commaFree (s : string) :
  Forall (fun piece => commaFree piece = true) (Str.split "," s).
Proof.
  induction s as [|c s IH]; simpl; [repeat constructor|].
  destruct (Ascii.eqb c ",") eqn:E.
  - constructor; [reflexivity|exact IH].
  - destruct (Str.split "," s) as [|piece rest].
    + constructor; [simpl; now rewrite E|constructor].
    + inversion IH as [|? ? Hp Hr]; subst.
      constructor; [simpl; now rewrite E, Hp|exact Hr].
Qed.

Lemma split_one (s : string) :
  commaFree s = true -> Str.split "," s = [s].
Proof.
  induction s as [|c s IH]; simpl; [reflexivity|].
  intros H. apply andb_true_iff in H as [Hc H].
  apply negb_true_iff in Hc. rewrite Hc, (IH H). reflexivity.
Qed.

Lemma split_append (s rest : string) :
  commaFree s = true ->
  Str.split "," (s ++ "," ++ rest) = s :: Str.split "," rest.
Proof.
  induction s as [|c s IH]; simpl; [reflexivity|].
  intros H. apply andb_true_iff in H as [Hc H].
  apply negb_true_iff in Hc. rewrite Hc.
  simpl in IH. rewrite (IH H). reflexivity.
Qed.

Lemma split_join (l : list string) :
  l <> [] ->
  Forall (fun s => commaFree s = true) l ->
  Str.split "," (Str.join "," l) = l.
Proof.
  induction l as [|x l IH]; [congruence|].
  intros _ F. inversion F as [|? ? Hx Hl]; subst.
  destruct l as [|y l].
  - simpl. now apply split_one.
  - change (Str.join "," (x :: y :: l))
      with (x ++ "," ++ Str.join "," (y :: l))%string.
    rewrite (split_append _ _ Hx), IH; [reflexivity|discriminate|exact Hl].
Qed.

Lemma parseTags_of_join (l : list string) :
  Forall (fun s => trimmedNonEmpty s /\ commaFree s = true) l ->
  parseTags (Str.join "," l) = l.
Proof.
  intros F. destruct l as [|x l]; [reflexivity|].
  rewrite parseTags_spec, split_join; [|discriminate|].
  - induction F as [|y l' [[Ht Hn] _] _ IH]; simpl; [reflexivity|].
    rewrite Ht. apply truthy_true_iff in Hn. rewrite Hn. now rewrite IH.
  - eapply Forall_impl; [|exact F]. now intros s [_ H].
Qed.

Lemma parseTags_commaFree (input : string) :
  Forall (fun s => trimmedNonEmpty s /\ commaFree s = true)
         (parseTags input).
Proof.
  apply Forall_forall. intros tag I. split.
  - pose proof (parseTags_trimmed input) as T.
    rewrite Forall_forall in T. now apply T.
  - rewrite parseTags_spec in I.
    apply filter_In in I as [I _].
    apply in_map_iff in I as (piece & <- & I).
    apply commaFree_trim.
    pose proof (split_commaFree input) as C.
    rewrite Forall_forall in C. now apply C.
Qed.

(** X23.  [parseTags] reads back a list of tags written with commas
    between them, when every tag is trimmed, not empty and without a
    comma; the tags it returns are always of that kind, so joining its
    result with commas and parsing again gives the same tags. *)
Theorem parseTags_reads_join (input : string) (l : list string) :
  (Forall (fun s => trimmedNonEmpty s /\ commaFree s = true) l ->
   parseTags (Str.join "," l) = l) /\
  Forall (fun s => trimmedNonEmpty s /\ commaFree s = true)
         (parseTags input) /\
  parseTags (Str.join "," (parseTags input)) = parseTags input.
Proof.
  split; [apply parseTags_of_join|].
  split; [apply parseTags_commaFree|].
  apply parseTags_of_join, parseTags_commaFree.
Qed.

End TagText.

(* ================================================================= *)
(** * The reference platform meets the laws *)

Module RefFacts.
Import Ref.

Local Open Scope string_scope.

Lemma append_assoc (a b c : string) : (a ++ b) ++ c = a ++ (b ++ c).
Proof. induction a as [|x a IH]; simpl; [reflexivity|]. now rewrite IH. Qed.

Lemma length_append (a b : string) :
  String.length (a ++ b) = (String.length a + String.length b)%nat.
Proof. induction a as [|x a IH]; simpl; [reflexivity|]. now rewrite IH. Qed.

(** *** Collation *)

Lemma compareText_antisym (a b : string) :
  Z.sgn (compareText a b) = (- Z.sgn (compareText b a))%Z.
Proof.
  unfold compareText. rewrite (String.compare_antisym a b).
  now destruct (String.compare b a).
Qed.

Lemma compare_trans_le (a b c : string) :
  String.compare a b <> Gt -> String.compare b c <> Gt ->
  String.compare a c <> Gt.
Proof.
  revert b c. induction a as [|x a IH]; intros [|y b] [|z c]; simpl;
    try congruence.
  destruct (Ascii.compare x y) eqn:Exy, (Ascii.compare y z) eqn:Eyz;
    try congruence.
  - apply Ascii.compare_eq_iff in Exy, Eyz. subst.
    assert (E : Ascii.compare z z = Eq).
    { destruct (Ascii.compare z z) eqn:E; auto;
        pose proof (Ascii.compare_antisym z z) as A; rewrite E in A;
        discriminate. }
    rewrite E. apply IH.
  - apply Ascii.compare_eq_iff in Exy. subst. now rewrite Eyz.
  - apply Ascii.compare_eq_iff in Eyz. subst. now rewrite Exy.
  - intros _ _. unfold Ascii.compare in *.
    rewrite N.compare_lt_iff in Exy, Eyz.
    assert (H : (N_of_ascii x ?= N_of_ascii z)%N = Lt)
      by (apply N.compare_lt_iff; lia).
    now rewrite H.
Qed.

Lemma compareText_trans (a b c : string) :
  (compareText a b <= 0)%Z -> (compareText b c <= 0)%Z ->
  (compareText a c <= 0)%Z.
Proof.
  unfold compareText. intros Hab Hbc.
  pose proof (compare_trans_le a b c) as T.
  destruct (String.compare a b), (String.compare b c), (String.compare a c);
    try lia; exfalso; apply T; congruence.
Qed.

(** *** Numbers *)

Lemma spanDigits_uint (d : Decimal.uint) (rest : string) :
  okTail rest ->
  spanDigits (NilEmpty.string_of_uint d ++ rest)
  = (NilEmpty.string_of_uint d, rest).
Proof.
  intros T. induction d; simpl; try (rewrite IHd; reflexivity).
  destruct rest as [|c rest]; simpl in *; [reflexivity|]. now rewrite T.
Qed.

Lemma digits_head (n : N) :
  exists c s, digits n = String c s /\ isDigit c = true.
Proof.
  unfold digits. destruct (N.to_uint n) as [|d|d|d|d|d|d|d|d|d|d] eqn:E;
    simpl; try (eexists; eexists; split; reflexivity).
  destruct n as [|p]; simpl in E; [discriminate|].
  now apply DecimalPos.Unsigned.to_uint_nonnil in E.
Qed.

Lemma parseNat_digits (n : N) (rest : string) :
  okTail rest -> parseNat (digits n ++ rest) = Some (n, rest).
Proof.
  intros T. unfold parseNat, digits.
  rewrite (spanDigits_uint _ _ T).
  destruct (digits_head n) as (c & s & E & _). unfold digits in E.
  rewrite E, <- E, NilEmpty.usu, DecimalN.Unsigned.of_to. reflexivity.
Qed.

Lemma parseNumber_printZ (z : Z) (rest : string) :
  okTail rest -> parseNumber (printZ z ++ rest) = Some (z, rest).
Proof.
  intros T. unfold printZ, parseNumber.
  destruct (z <? 0)%Z eqn:S; simpl.
  - rewrite (parseNat_digits _ _ T). apply Z.ltb_lt in S.
    repeat f_equal. rewrite N2Z.inj_abs_N. lia.
  - destruct (digits_head (Z.abs_N z)) as (c & s & E & D).
    rewrite E; simpl.
    assert (M : Ascii.eqb c "-" = false).
    { destruct (Ascii.eqb_spec c "-"); [subst; discriminate|reflexivity]. }
    rewrite M. change (String c (s ++ rest)) with (String c s ++ rest).
    rewrite <- E, (parseNat_digits _ _ T). apply Z.ltb_ge in S.
    repeat f_equal. rewrite N2Z.inj_abs_N. lia.
Qed.

(** *** Strings *)

Lemma parseString_escape (s rest : string) :
  parseString (escape s ++ String dquote rest) = Some (s, rest).
Proof.
  induction s as [|c s IH]; simpl; [reflexivity|].
  destruct (Ascii.eqb c dquote) eqn:Q; simpl.
  - now rewrite IH.
  - destruct (Ascii.eqb c backslash) eqn:B; simpl.
    + now rewrite IH.
    + now rewrite Q, B, IH.
Qed.

Lemma stripPrefix_app (p rest : string) : stripPrefix p (p ++ rest) = Some rest.
Proof.
  induction p as [|c p IH]; simpl; [now destruct rest|].
  now rewrite Ascii.eqb_refl.
Qed.

(** *** Values *)


Lemma print_start (j : json) :
  exists c s, print j = String c s /\ valueStart c = true.
Proof.
  destruct j as [|[]|z| | |]; simpl;
    try (eexists; eexists; split; reflexivity).
  unfold printZ. destruct (z <? 0)%Z.
  - eexists; eexists; split; reflexivity.
  - destruct (digits_head (Z.abs_N z)) as (c & s & E & D).
    exists c, s. split; [exact E|]. unfold valueStart. now rewrite D.
Qed.

Lemma okTail_punct (c : ascii) (rest : string) :
  isDigit c = false -> okTail (String c rest).
Proof. intros H; exact H. Qed.

Lemma parseElems_print (elts : list json) :
  Forall readsBack elts -> elts <> [] ->
  forall fuel rest,
    list_sum (map (fun e => S (size e)) elts) <= fuel ->
    parseElems fuel (commaSep (map print elts) ++ String "]" rest)
    = Some (elts, rest).
Proof.
  induction 1 as [|e elts He Hs IH]; [congruence|].
  intros _ fuel rest F. simpl in F.
  destruct fuel as [|fuel]; [lia|].
  destruct elts as [|e2 elts].
  - simpl. rewrite He by (simpl; auto; lia). reflexivity.
  - change (commaSep (map print (e :: e2 :: elts)))
      with (print e ++ String "," (commaSep (map print (e2 :: elts)))).
    rewrite append_assoc.
    change ((String "," (commaSep (map print (e2 :: elts)))) ++ String "]" rest)
      with (String "," (commaSep (map print (e2 :: elts)) ++ String "]" rest)).
    cbn [parseElems]. rewrite He by (simpl; auto; lia).
    cbn [Ascii.eqb Bool.eqb]. 
    rewrite IH by (try congruence; simpl in *; lia). reflexivity.
Qed.

Lemma parseMembers_print (props : list (string * json)) :
  Forall (fun kv => readsBack (snd kv)) props -> props <> [] ->
  forall fuel rest,
    list_sum (map (fun kv => S (size (snd kv))) props) <= fuel ->
    parseMembers fuel (commaSep (map printMember props) ++ String "}" rest)
    = Some (props, rest).
Proof.
  induction 1 as [|[k v] props Hv Hs IH]; [congruence|].
  intros _ fuel rest F. simpl in F, Hv.
  destruct fuel as [|fuel]; [lia|].
  assert (M : forall tail,
             parseMembers (S fuel) (printMember (k, v) ++ tail)
             = match parseValue fuel (print v ++ tail) with
               | Some (v', String c rest') =>
                   if Ascii.eqb c ","
                   then match parseMembers fuel rest' with
                        | Some (ms, rest'') => Some ((k, v') :: ms, rest'')
                        | None => None
                        end
                   else if Ascii.eqb c "}" then Some ([(k, v')], rest')
                   else None
               | _ => None
               end).
  { intros tail. unfold printMember, quote. simpl fst. simpl snd.
    cbn [append]. rewrite !append_assoc. cbn [append parseMembers].
    change (Ascii.eqb dquote dquote) with true. cbn iota.
    rewrite parseString_escape. cbn [Ascii.eqb Bool.eqb]. reflexivity. }
  destruct props as [|kv2 props].
  - simpl commaSep. rewrite M, Hv by (simpl; auto; lia). reflexivity.
  - change (commaSep (map printMember ((k, v) :: kv2 :: props)))
      with (printMember (k, v)
            ++ String "," (commaSep (map printMember (kv2 :: props)))).
    rewrite append_assoc, M.
    change ((String "," (commaSep (map printMember (kv2 :: props))))
            ++ String "}" rest)
      with (String "," (commaSep (map printMember (kv2 :: props))
                        ++ String "}" rest)).
    rewrite Hv by (simpl; auto; lia).
    cbn [Ascii.eqb Bool.eqb].
    rewrite IH by (try congruence; simpl in *; lia). reflexivity.
Qed.

Lemma valueStart_not (c d : ascii) :
  valueStart c = true -> valueStart d = false -> Ascii.eqb d c = false.
Proof.
  intros Hc Hd. destruct (Ascii.eqb_spec d c); [subst; congruence|reflexivity].
Qed.

Lemma parseValue_string (fuel : nat) (t : string) :
  parseValue (S fuel) (String dquote t)
  = match parseString t with
    | Some (str, rest) => Some (JStr str, rest)
    | None => None
    end.
Proof. reflexivity. Qed.

Lemma parseValue_array (fuel : nat) (c : ascii) (t : string) :
  Ascii.eqb "]" c = false ->
  parseValue (S fuel) (String "[" (String c t))
  = match parseElems fuel (String c t) with
    | Some (elts, rest) => Some (JArr elts, rest)
    | None => None
    end.
Proof. intros N. cbn [parseValue stripPrefix]. rewrite N. reflexivity. Qed.

Lemma parseValue_object (fuel : nat) (t : string) :
  parseValue (S fuel) (String "{" (String dquote t))
  = match parseMembers fuel (String dquote t) with
    | Some (props, rest) => Some (JObj props, rest)
    | None => None
    end.
Proof. reflexivity. Qed.

Lemma commaSep_head (x : string) (xs : list string) (c : ascii) (t tail : string) :
  x = String c t -> exists t', commaSep (x :: xs) ++ tail = String c t'.
Proof. intros ->. destruct xs; cbn; eexists; reflexivity. Qed.

Lemma parseValue_print (j : json) : readsBack j.
Proof.
  induction j as [|b|z|s|elts IH|props IH] using json_nested_ind;
    intros fuel rest F T; simpl in F; (destruct fuel as [|fuel]; [lia|]).
  - reflexivity.
  - destruct b; reflexivity.
  - cbn [parseValue print]. now rewrite parseNumber_printZ.
  - cbn [print]. unfold quote. cbn [append]. rewrite append_assoc.
    cbn [append]. now rewrite parseValue_string, parseString_escape.
  - destruct elts as [|e elts]; [reflexivity|].
    cbn [print]. cbn [append]. rewrite append_assoc.
    destruct (print_start e) as (c & s & E & V).
    assert (N1 : Ascii.eqb "]" c = false) by (apply (valueStart_not c); auto).
    pose proof (parseElems_print (e :: elts) IH ltac:(congruence) fuel rest
                  ltac:(lia)) as R.
    change ("]" ++ rest) with (String "]" rest).
    destruct (commaSep_head (print e) (map print elts) c s (String "]" rest) E)
      as [t Hb].
    cbn [map]. cbn [map] in R. rewrite Hb in *.
    now rewrite (parseValue_array fuel c t N1), R.
  - destruct props as [|[k v] props]; [reflexivity|].
    change (print (JObj ((k, v) :: props)))
      with (String "{" (commaSep (map printMember ((k, v) :: props)) ++ "}")).
    cbn [append]. rewrite append_assoc.
    pose proof (parseMembers_print ((k, v) :: props) IH ltac:(congruence)
                  fuel rest ltac:(simpl in *; lia)) as R.
    change ("}" ++ rest) with (String "}" rest).
    destruct (commaSep_head (printMember (k, v)) (map printMember props)
                dquote _ (String "}" rest) eq_refl) as [t Hb].
    cbn [map]. cbn [map] in R. rewrite Hb in *.
    now rewrite (parseValue_object fuel t), R.
Qed.

Lemma size_commaSep {A} (f : A -> nat) (g : A -> string) (l : list A) :
  Forall (fun x => f x <= String.length (g x)) l ->
  list_sum (map (fun x => S (f x)) l)
  <= S (String.length (commaSep (map g l))).
Proof.
  induction 1 as [|x l Hx Hl IH]; [simpl; lia|].
  destruct l as [|y l].
  - simpl. lia.
  - change (commaSep (map g (x :: y :: l)))
      with (g x ++ String "," (commaSep (map g (y :: l)))).
    rewrite length_append. simpl in *. lia.
Qed.

Lemma size_le_length (j : json) : size j <= String.length (print j).
Proof.
  induction j as [|b|z|s|elts IH|props IH] using json_nested_ind;
    try (simpl; lia).
  - destruct b; simpl; lia.
  - destruct (print_start (JNum z)) as (c & s & E & _). rewrite E. simpl. lia.
  - cbn [size print String.length]. rewrite length_append.
    pose proof (size_commaSep size print elts IH). simpl. lia.
  - change (print (JObj props))
      with (String "{" (commaSep (map printMember props) ++ "}")).
    cbn [size String.length]. rewrite length_append.
    assert (IH' : Forall (fun kv => size (snd kv) <= String.length (printMember kv))
                         props).
    { eapply Forall_impl; [|exact IH]. intros [k v] H; simpl in *.
      unfold printMember, quote. simpl. rewrite length_append. simpl. lia. }
    pose proof (size_commaSep (fun kv => size (snd kv)) printMember props IH').
    simpl. lia.
Qed.

Lemma append_empty (s : string) : s ++ "" = s.
Proof. induction s as [|c s IH]; simpl; [reflexivity|]. now rewrite IH. Qed.

Lemma parse_print (j : json) : parse (print j) = Some j.
Proof.
  unfold parse.
  pose proof (parseValue_print j (S (String.length (print j))) ""
                ltac:(pose proof (size_le_length j); lia) I) as R.
  rewrite append_empty in R. now rewrite R.
Qed.

Lemma print_nonempty (j : json) : print j <> "".
Proof. destruct (print_start j) as (c & s & E & _). now rewrite E. Qed.

(** The reference platform is a platform as the proofs need it. *)
Lemma laws : PlatformLaws Ref.platform.
Proof.
  constructor; simpl.
  - exact compareText_antisym.
  - exact compareText_trans.
  - exact parse_print.
  - exact print_nonempty.
Qed.

End RefFacts.

(* ================================================================= *)
(** * The statements at work on the sample session *)

Local Ltac all_tasks tac :=
  repeat (apply Forall_cons; [tac|]); apply Forall_nil.

(** C3, the example as it is worded: three tasks, one of them
    incomplete.  The text counts the incomplete ones, so it reads
    "1 of 3", not "2 of 3". *)
Lemma count_summary_example_refuted :
  List.length (theTasks Demo.oneLeft) = 3 /\
  incomplete (theTasks Demo.oneLeft) = 1 /\
  countText (dom (updateTaskCount Demo.oneLeft)) = "1 of 3 tasks left" /\
  countText (dom (updateTaskCount Demo.oneLeft)) <> "2 of 3 tasks left".
Proof. vm_compute. repeat split; discriminate. Qed.


Lemma render_sorts_witness :
  valid Demo.byTag /\
  Forall timed (theTasks Demo.byTag) /\
  candidates Demo.byTag <> [] /\
  exists shown,
    listContent (dom (renderTasks (P := Ref.platform) Demo.byTag)) = Items shown /\
    Permutation shown (candidates Demo.byTag) /\
    StronglySorted (displayOrder (P := Ref.platform) (sortMode Demo.byTag)) shown.
Proof.
  assert (V : valid Demo.byTag) by (vm_compute; lia).
  assert (T : Forall timed (theTasks Demo.byTag))
    by (vm_compute; all_tasks ltac:(discriminate)).
  assert (N : candidates Demo.byTag <> []) by (vm_compute; discriminate).
  split; [exact V|split; [exact T|split; [exact N|]]].
  apply (@render_sorts Ref.platform RefFacts.laws Demo.byTag V T N).
Defined.

Lemma filter_selects_candidates_witness :
  valid Demo.filteredOut /\
  filterConsistent Demo.filteredOut /\
  activeTagFilter Demo.filteredOut <> None /\
  theTasks Demo.filteredOut <> [] /\
  candidates Demo.filteredOut = [] /\
  listContent (dom (renderTasks (P := Ref.platform) Demo.filteredOut))
  = EmptyState (NoTasksWithTag "garden").
Proof.
  assert (V : valid Demo.filteredOut) by (vm_compute; lia).
  assert (C : filterConsistent Demo.filteredOut)
    by (vm_compute; split; [reflexivity|discriminate]).
  assert (F : activeTagFilter Demo.filteredOut <> None) by (vm_compute; discriminate).
  assert (N : theTasks Demo.filteredOut <> []) by (vm_compute; discriminate).
  assert (E : candidates Demo.filteredOut = []) by (vm_compute; reflexivity).
  repeat (split; [assumption|]).
  destruct (@filter_selects_candidates Ref.platform Demo.filteredOut V C)
    as [_ H].
  destruct (H F) as [_ H2]. destruct (H2 N E) as [H3 _]. exact H3.
Defined.

Lemma load_coerces_records_witness :
  getItem (storage Demo.withRecords) STORAGE_KEY
  = Some (Ref.print (JArr Demo.storedRecords)) /\
  forallb (storedRecord (P := Ref.platform)) Demo.storedRecords = true /\
  theTasks (loadTasks (P := Ref.platform) Demo.withRecords)
  = fst (specLoad (P := Ref.platform) Demo.storedRecords (world Demo.withRecords)) /\
  List.length (theTasks (loadTasks (P := Ref.platform) Demo.withRecords)) = 3.
Proof.
  assert (G : getItem (storage Demo.withRecords) STORAGE_KEY
              = Some (Ref.print (JArr Demo.storedRecords))) by reflexivity.
  assert (N : Ref.print (JArr Demo.storedRecords) <> EmptyString)
    by (vm_compute; discriminate).
  assert (Pj : JSON_parse (Platform := Ref.platform)
                 (Ref.print (JArr Demo.storedRecords))
               = Some (JArr Demo.storedRecords)) by (vm_compute; reflexivity).
  assert (R : forallb (storedRecord (P := Ref.platform)) Demo.storedRecords = true)
    by (vm_compute; reflexivity).
  split; [exact G|split; [exact R|]].
  destruct (@load_coerces_records Ref.platform Demo.withRecords _ _ G N Pj R)
    as (H1 & _ & H3).
  split; [exact H1 | exact H3].
Defined.

Lemma load_malformed_witness :
  getItem Demo.corrupted STORAGE_KEY = Some "not json" /\
  JSON_parse (Platform := Ref.platform) "not json" = None /\
  theTasks (loadTasks (P := Ref.platform)
              (boot Demo.page Demo.corrupted Demo.world)) = [].
Proof.
  assert (G : getItem Demo.corrupted STORAGE_KEY = Some "not json") by reflexivity.
  assert (Pn : JSON_parse (Platform := Ref.platform) "not json" = None)
    by (vm_compute; reflexivity).
  split; [exact G|split; [exact Pn|]].
  destruct (@load_malformed Ref.platform Demo.page Demo.corrupted Demo.world
              "not json" G (or_introl Pn)) as [H _].
  exact H.
Defined.

Lemma addTask_blank_title_witness :
  Str.trim "   " = EmptyString /\
  addTask (P := Ref.platform) Demo.three "   " "x,y" = Demo.three.
Proof.
  assert (E : Str.trim "   " = EmptyString) by reflexivity.
  split; [exact E|].
  destruct (@addTask_blank_title Ref.platform Demo.three "   " "x,y" E) as [H _].
  exact H.
Defined.

Lemma addTask_appends_witness :
  Str.trim "Buy milk" <> EmptyString /\
  valid Demo.start /\
  exists t,
    theTasks (addTask (P := Ref.platform) Demo.start
                      "Buy milk" "home, errands, ,home")
    = theTasks Demo.start ++ [t] /\
    tags t = ["home"; "errands"; "home"].
Proof.
  assert (N : Str.trim "Buy milk" <> EmptyString) by (vm_compute; discriminate).
  assert (V : valid Demo.start) by (vm_compute; lia).
  split; [exact N|split; [exact V|]].
  destruct (@addTask_appends Ref.platform Demo.start
              "Buy milk" "home, errands, ,home" N V) as (H & _).
  eexists. split; [exact H|reflexivity].
Defined.

Lemma render_keeps_collection_witness :
  valid Demo.byTag /\
  theTasks (renderTasks (P := Ref.platform) Demo.byTag) = theTasks Demo.byTag.
Proof.
  assert (V : valid Demo.byTag) by (vm_compute; lia).
  split; [exact V|].
  destruct (@render_keeps_collection Ref.platform Demo.byTag V) as (_ & H & _).
  exact H.
Defined.

(* ================================================================= *)
(** * The examples of the specification *)

(** Creation times 3, 1, 2 and no tags come out as 1, 2, 3. *)
Example sort_by_creation_time :
  map createdAt
      (sort (compareTasks (P := Ref.platform) SortCreatedAt)
            [Demo.stamped 3 []; Demo.stamped 1 []; Demo.stamped 2 []])
  = [Fin 1; Fin 2; Fin 3].
Proof. vm_compute. reflexivity. Qed.

(** First tags b, none, a with equal creation times come out as a, b,
    untagged; an empty first tag counts as none. *)
Example sort_by_tag :
  map tags
      (sort (compareTasks (P := Ref.platform) SortTag)
            [Demo.stamped 5 ["b"]; Demo.stamped 5 []; Demo.stamped 5 ["a"]])
  = [["a"]; ["b"]; []]
  /\ map tags
      (sort (compareTasks (P := Ref.platform) SortTag)
            [Demo.stamped 5 ["B"]; Demo.stamped 5 [""]; Demo.stamped 5 ["a"]])
  = [["a"]; ["B"]; [""]].
Proof. vm_compute. split; reflexivity. Qed.

(** On a tie of tags the older task comes first, and so it does among
    the untagged. *)
Example sort_by_tag_ties :
  map createdAt
      (sort (compareTasks (P := Ref.platform) SortTag)
            [Demo.stamped 9 []; Demo.stamped 4 ["x"]; Demo.stamped 7 [];
             Demo.stamped 2 ["X"]])
  = [Fin 2; Fin 4; Fin 7; Fin 9].
Proof. vm_compute. reflexivity. Qed.

(** The filter label "Home" shows the task tagged "home". *)
Example filter_ignores_case :
  activeTagFilter Demo.filtered = Some "home" /\
  activeTagLabel Demo.filtered = "Home" /\
  match listContent (dom Demo.filtered) with
  | Items shown => map title shown = ["Buy milk"]
  | _ => False
  end.
Proof. vm_compute. repeat split. Qed.

(** Two of the three sample tasks are left to do. *)
Example count_two_of_three :
  incomplete (theTasks Demo.three) = 2 /\
  countText (dom Demo.three) = "2 of 3 tasks left".
Proof. vm_compute. split; reflexivity. Qed.

(** Clearing a collection in which every task is done leaves no task,
    and the text "No tasks". *)
Example clear_all_completed :
  let st := run (P := Ref.platform) Demo.oneLeft
                [Toggle "uuid-0"; ClearCompleted] in
  theTasks st = [] /\ countText (dom st) = "No tasks".
Proof. vm_compute. split; reflexivity. Qed.

(** Clearing the sample collection removes the one task that is done. *)
Example clear_keeps_incomplete :
  map id (theTasks (clearCompletedTasks (P := Ref.platform) Demo.three))
  = ["uuid-0"; "uuid-2"].
Proof. vm_compute. reflexivity. Qed.

(** A stored title of blanks is kept as the empty title; the add path
    would have refused it. *)
Example load_keeps_blank_title :
  map title (theTasks (loadTasks (P := Ref.platform) Demo.withRecords))
  = [""; "x"; ""]
  /\ map id (theTasks (loadTasks (P := Ref.platform) Demo.withRecords))
  = ["uuid-0"; "7"; "uuid-1"]
  /\ map tags (theTasks (loadTasks (P := Ref.platform) Demo.withRecords))
  = [[]; ["a"; "null"; "true"]; []].
Proof. vm_compute. repeat split. Qed.

(** A stored value that is not a sequence leaves the start-up collection
    empty. *)
Example load_not_a_sequence :
  theTasks (loadTasks (P := Ref.platform)
              (boot Demo.page Demo.notASequence Demo.world)) = [].
Proof. vm_compute. reflexivity. Qed.

(** ** Where the hypotheses end *)

(** A [null] among the stored records makes the callback throw, and the
    [catch] drops the records read before it. *)
Example load_null_among_records :
  theTasks (loadTasks (P := Ref.platform) Demo.withNull) = [].
Proof. vm_compute. reflexivity. Qed.

(** A [createdAt] that is not finite is written as [null] and read back
    as the time of loading. *)
Example roundtrip_needs_finite_createdAt :
  map createdAt
      (theTasks (loadTasks (P := Ref.platform)
                   (saveTasks (P := Ref.platform) Demo.undated)))
  = [Fin 1700000000000].
Proof. vm_compute. reflexivity. Qed.

(** When the browser refuses the write, the storage keeps the older
    collection and a load brings that one back. *)
Example roundtrip_needs_accepted_write :
  map title (theTasks Demo.refused) = ["Buy milk"] /\
  theTasks (loadTasks (P := Ref.platform)
              (saveTasks (P := Ref.platform) Demo.refused)) = [].
Proof. vm_compute. split; reflexivity. Qed.

(* ================================================================= *)
(** * The further properties at work on the sample session *)

Local Ltac each_task tac :=
  repeat (apply Forall_cons; [tac|]); apply Forall_nil.

Lemma ofNat_inj (j k : nat) : Str.ofNat j = Str.ofNat k -> j = k.
Proof.
  unfold Str.ofNat. intros H.
  apply (f_equal NilEmpty.uint_of_string) in H.
  rewrite !NilEmpty.usu in H. injection H as H.
  apply (f_equal Nat.of_uint) in H.
  now rewrite !DecimalNat.Unsigned.of_to in H.
Qed.

Lemma uuids_injective : injective Samples.uuids.
Proof.
  intros j k H. unfold Samples.uuids in H. simpl in H.
  injection H as H. now apply ofNat_inj.
Qed.

Lemma removeTask_absent_witness :
  (forall t, In t (theTasks Demo.three) -> id t <> "nobody"%string) /\
  theTasks (removeTask (P := Ref.platform) Demo.three "nobody")
  = theTasks Demo.three.
Proof.
  assert (A : forall t, In t (theTasks Demo.three) -> id t <> "nobody"%string).
  { apply Forall_forall. vm_compute. each_task ltac:(discriminate). }
  split; [exact A|].
  destruct (@removeTask_absent Ref.platform Demo.three "nobody" A) as [H _].
  exact H.
Defined.

Lemma render_page_stable_witness :
  valid Demo.three /\ valid Demo.byTag /\
  theTasks Demo.byTag = theTasks Demo.three /\
  countText (dom (renderTasks (P := Ref.platform) Demo.byTag))
  = countText (dom (renderTasks (P := Ref.platform) Demo.three)).
Proof.
  assert (V : valid Demo.three) by (vm_compute; lia).
  assert (V2 : valid Demo.byTag) by (vm_compute; lia).
  assert (E : theTasks Demo.byTag = theTasks Demo.three)
    by (vm_compute; reflexivity).
  split; [exact V|split; [exact V2|split; [exact E|]]].
  destruct (@render_page_stable Ref.platform Demo.three Demo.byTag V V2 E)
    as (_ & H & _).
  exact H.
Defined.

Lemma no_mutation_no_write_witness :
  valid Demo.three /\
  mutates (Add "   " "x") = false /\
  storage (step (P := Ref.platform) Demo.three (Add "   " "x"))
  = storage Demo.three.
Proof.
  assert (V : valid Demo.three) by (vm_compute; lia).
  assert (M : mutates (Add "   " "x") = false) by reflexivity.
  split; [exact V|split; [exact M|]].
  destruct (@no_mutation_no_write Ref.platform Demo.three (Add "   " "x") V M)
    as (_ & H & _).
  exact H.
Defined.

Lemma mutation_writes_once_witness :
  valid Demo.three /\
  mutates (Toggle "uuid-0") = true /\
  setItemCalls (storage (step (P := Ref.platform) Demo.three (Toggle "uuid-0")))
  = S (setItemCalls (storage Demo.three)).
Proof.
  assert (V : valid Demo.three) by (vm_compute; lia).
  assert (M : mutates (Toggle "uuid-0") = true) by reflexivity.
  split; [exact V|split; [exact M|]].
  destruct (@mutation_writes_once Ref.platform Demo.three (Toggle "uuid-0") V M)
    as (H & _).
  exact H.
Defined.

Lemma collection_ignores_storage_witness :
  valid Demo.three /\ valid Samples.threeRefused /\
  theTasks Demo.three = theTasks Samples.threeRefused /\
  world Demo.three = world Samples.threeRefused /\
  theTasks (step (P := Ref.platform) Demo.three (Add "Water plants" "garden"))
  = theTasks (step (P := Ref.platform) Samples.threeRefused
                   (Add "Water plants" "garden")).
Proof.
  assert (V : valid Demo.three) by (vm_compute; lia).
  assert (V2 : valid Samples.threeRefused) by (vm_compute; lia).
  assert (E : theTasks Demo.three = theTasks Samples.threeRefused)
    by (vm_compute; reflexivity).
  assert (W : world Demo.three = world Samples.threeRefused)
    by (unfold Samples.threeRefused, setStorage;
        cbv beta iota delta [world]; reflexivity).
  split; [exact V|split; [exact V2|split; [exact E|split; [exact W|]]]].
  exact (@collection_ignores_storage Ref.platform Demo.three
           Samples.threeRefused (Add "Water plants" "garden") V V2 E W).
Defined.

Lemma reload_restores_witness :
  valid Demo.start /\
  mutates (Add "Buy milk" "home") = true /\
  wellFormed (theTasks (step (P := Ref.platform) Demo.start
                             (Add "Buy milk" "home"))) /\
  accepts (storage Demo.start) STORAGE_KEY
          (JSON_stringify (Platform := Ref.platform)
             (tasksToJSON (theTasks (step (P := Ref.platform) Demo.start
                                          (Add "Buy milk" "home"))))) = true /\
  theTasks (init (P := Ref.platform)
              (boot Demo.page
                    (storage (step (P := Ref.platform) Demo.start
                                   (Add "Buy milk" "home")))
                    Demo.world))
  = theTasks (step (P := Ref.platform) Demo.start (Add "Buy milk" "home")).
Proof.
  assert (V : valid Demo.start) by (vm_compute; lia).
  assert (M : mutates (Add "Buy milk" "home") = true) by reflexivity.
  assert (W : wellFormed (theTasks (step (P := Ref.platform) Demo.start
                                         (Add "Buy milk" "home")))).
  { apply wellFormedb_sound. vm_compute. reflexivity. }
  assert (A : accepts (storage Demo.start) STORAGE_KEY
                (JSON_stringify (Platform := Ref.platform)
                   (tasksToJSON (theTasks (step (P := Ref.platform) Demo.start
                                                (Add "Buy milk" "home")))))
              = true) by (vm_compute; reflexivity).
  split; [exact V|split; [exact M|split; [exact W|split; [exact A|]]]].
  exact (@reload_restores Ref.platform RefFacts.laws Demo.start
           (Add "Buy milk" "home") Demo.page Demo.world V M W A).
Defined.

Lemma add_then_remove_witness :
  Str.trim "Water plants" <> EmptyString /\
  valid Demo.three /\
  (forall t, In t (theTasks Demo.three) ->
             id t <> fst (newId (P := Ref.platform) (world Demo.three))) /\
  theTasks (removeTask (P := Ref.platform)
              (addTask (P := Ref.platform) Demo.three "Water plants" "garden")
              (fst (newId (P := Ref.platform) (world Demo.three))))
  = theTasks Demo.three.
Proof.
  assert (N : Str.trim "Water plants" <> EmptyString)
    by (vm_compute; discriminate).
  assert (V : valid Demo.three) by (vm_compute; lia).
  assert (F : forall t, In t (theTasks Demo.three) ->
                        id t <> fst (newId (P := Ref.platform) (world Demo.three))).
  { apply Forall_forall. vm_compute. each_task ltac:(discriminate). }
  split; [exact N|split; [exact V|split; [exact F|]]].
  exact (@add_then_remove Ref.platform Demo.three "Water plants" "garden"
           N V F).
Defined.

Lemma ids_stay_unique_witness :
  injective Samples.uuids /\
  valid Demo.start /\
  randomUUID (world Demo.start) = Some Samples.uuids /\
  theTasks Demo.start = [] /\
  NoDup (map id (theTasks (run (P := Ref.platform) Demo.start
                               [ Add "a" ""; Add "b" "x"; Remove "uuid-0";
                                 Add "c" ""; Toggle "uuid-2" ]))).
Proof.
  assert (V : valid Demo.start) by (vm_compute; lia).
  assert (R : randomUUID (world Demo.start) = Some Samples.uuids)
    by reflexivity.
  assert (E : theTasks Demo.start = []) by reflexivity.
  split; [exact uuids_injective|split; [exact V|split; [exact R|split; [exact E|]]]].
  exact (@ids_stay_unique Ref.platform Samples.uuids Demo.start _
           uuids_injective V R E).
Defined.

Lemma save_load_normalises_witness :
  Forall (fun t => Num.isFinite (createdAt t) = true)
         (theTasks Samples.untidy) /\
  accepts (storage Samples.untidy) STORAGE_KEY
          (JSON_stringify (Platform := Ref.platform)
                          (tasksToJSON (theTasks Samples.untidy))) = true /\
  theTasks (loadTasks (P := Ref.platform)
              (saveTasks (P := Ref.platform) Samples.untidy))
  = map normalise (theTasks Samples.untidy).
Proof.
  assert (F : Forall (fun t => Num.isFinite (createdAt t) = true)
                     (theTasks Samples.untidy))
    by (vm_compute; each_task ltac:(reflexivity)).
  assert (A : accepts (storage Samples.untidy) STORAGE_KEY
                (JSON_stringify (Platform := Ref.platform)
                                (tasksToJSON (theTasks Samples.untidy))) = true)
    by reflexivity.
  split; [exact F|split; [exact A|]].
  destruct (@save_load_normalises Ref.platform RefFacts.laws Samples.untidy F A)
    as [H _].
  exact H.
Defined.

Lemma setActiveTagFilter_edges_witness :
  valid Demo.three /\
  activeTagFilter (onClearTagFilter (P := Ref.platform) Demo.three) = None /\
  ("Home"%string <> EmptyString ->
   activeTagFilter (setActiveTagFilter (P := Ref.platform) Demo.three (Some "Home"))
   = Some (Str.toLowerCase "Home")).
Proof.
  assert (V : valid Demo.three) by (vm_compute; lia).
  split; [exact V|].
  destruct (@setActiveTagFilter_edges Ref.platform Demo.three "Home" V)
    as ((H & _) & K).
  split; [exact H|].
  intros N. destruct (K N) as [H2 _]. exact H2.
Defined.

Lemma tag_click_toggles_witness :
  valid Demo.three /\
  "Home"%string <> EmptyString /\
  activeTagFilter Demo.three <> Some (Str.toLowerCase "Home") /\
  Str.toLowerCase "home" = Str.toLowerCase "Home" /\
  activeTagFilter
    (onTagClick (P := Ref.platform)
       (onTagClick (P := Ref.platform) Demo.three "Home") "home") = None.
Proof.
  assert (V : valid Demo.three) by (vm_compute; lia).
  assert (N : "Home"%string <> EmptyString) by discriminate.
  assert (O : activeTagFilter Demo.three <> Some (Str.toLowerCase "Home"))
    by (vm_compute; discriminate).
  assert (E : Str.toLowerCase "home" = Str.toLowerCase "Home") by reflexivity.
  split; [exact V|split; [exact N|split; [exact O|split; [exact E|]]]].
  destruct (@tag_click_toggles Ref.platform Demo.three "Home" "home" V N O E)
    as (_ & _ & H & _).
  exact H.
Defined.

Lemma sort_change_same_tasks_witness :
  valid Demo.three /\
  theTasks (onSortChange (P := Ref.platform) Demo.three "tag")
  = theTasks Demo.three.
Proof.
  assert (V : valid Demo.three) by (vm_compute; lia).
  split; [exact V|].
  destruct (@sort_change_same_tasks Ref.platform Demo.three "tag" "createdAt" V)
    as (_ & _ & H & _).
  exact H.
Defined.

Lemma untagged_sort_modes_agree_witness :
  valid Samples.plain /\
  Forall untagged (theTasks Samples.plain) /\
  theTasks Samples.plain <> [] /\
  dom (onSortChange (P := Ref.platform) Samples.plain "tag")
  = dom (onSortChange (P := Ref.platform) Samples.plain "createdAt").
Proof.
  assert (V : valid Samples.plain) by (vm_compute; lia).
  assert (U : Forall untagged (theTasks Samples.plain))
    by (vm_compute; each_task ltac:(reflexivity)).
  assert (N : theTasks Samples.plain <> []) by (vm_compute; discriminate).
  split; [exact V|split; [exact U|split; [exact N|]]].
  exact (@untagged_sort_modes_agree Ref.platform Samples.plain
           "tag" "createdAt" V U).
Defined.

Lemma add_page_witness :
  valid Demo.three /\
  Str.trim "Water plants" <> EmptyString /\
  countText (dom (addTask (P := Ref.platform) Demo.three "Water plants" ""))
  = specSummary (S (List.length (theTasks Demo.three)))
                (S (incomplete (theTasks Demo.three))).
Proof.
  assert (V : valid Demo.three) by (vm_compute; lia).
  assert (N : Str.trim "Water plants" <> EmptyString)
    by (vm_compute; discriminate).
  split; [exact V|split; [exact N|]].
  destruct (@add_page Ref.platform Demo.three "Water plants" "" V N)
    as (H & _).
  exact H.
Defined.

